(** * BayesianTracker: the hypothesis-based global optimiser

    A shallow embedding of [TrackOptimiser.optimise]
    (src/btrack/optimise/optimiser.py) and the properties of the
    constraint system it hands to the integer-program solver.

    Python [int] is [Z]; Python [float] (C double) is modelled by [Q]: the
    only float operations [optimise] performs itself are the unary minus
    (exact on doubles) and the comparison [x[i] > 0].  The sparse matrix of
    cvxopt is a finite map from (row, column) to its stored value; cells
    that are not stored read as zero. *)

From Stdlib Require Import ZArith QArith Lqa Lia.
From stdpp Require Import base option list gmap strings sorting.

Local Open Scope Z_scope.

(** ** Exceptions and fallible computations *)

Inductive exn :=
  | ValueError (msg : string)
  | IndexError (msg : string)
  | TypeError (msg : string).

Inductive result (T : Type) :=
  | Ok (v : T)
  | Raise (e : exn).
Arguments Ok {T} v.
Arguments Raise {T} e.

Definition bind {T U} (m : result T) (k : T → result U) : result U :=
  match m with
  | Ok v => k v
  | Raise e => Raise e
  end.

Notation "x <~ m ; k" := (bind m (λ x, k))
  (at level 100, m at next level, right associativity, only parsing).

Definition raised {T} (m : result T) : Prop := ∃ e, m = Raise e.

(** ** Hypotheses *)

(** Modelled from the spec: [btrack.constants.Fates] is imported by the
    optimiser but is not among the sources.  The spec gives a closed set of
    seven event kinds; [UNRECOGNISED] stands for any other value a
    hypothesis may carry as its type, that is, one that compares unequal
    to each of the seven. *)
Inductive Fates :=
  | FALSE_POSITIVE
  | INITIALIZE
  | TERMINATE
  | APOPTOSIS
  | LINK
  | DIVIDE
  | MERGE
  | UNRECOGNISED (code : Z).

Definition recognised (f : Fates) : bool :=
  match f with
  | UNRECOGNISED _ => false
  | _ => true
  end.

(** Modelled from the spec: the class of the hypothesis objects
    (btrack/optimise/hypothesis.py) is not among the sources.  The record
    holds the attributes that [optimise] reads, which are the fields of the
    TrackHypothesis of section 3: the subject id, the type, the score and
    the references of a link, a division and a merge. *)
Record PyHypothesis := {
  ID : Z;
  type : Fates;
  log_likelihood : Q;
  link_ID : Z;
  child_one_ID : Z;
  child_two_ID : Z;
  parent_one_ID : Z;
  parent_two_ID : Z
}.

(** ** cvxopt matrices *)

(** A sparse matrix: its size and the stored cells.  Keys are physical
    (row, column) positions, both zero-based. *)
Record spmatrix := {
  nrows : Z;
  ncols : Z;
  entries : gmap (Z * Z) Q
}.

(** [spmatrix([], [], [], (m, n), 'd')]: negative dimensions are refused. *)
Definition spmatrix_new (size : Z * Z) : result spmatrix :=
  let '(m, n) := size in
  if (m <? 0) || (n <? 0)
  then Raise (TypeError "dimensions must be non-negative")
  else Ok {| nrows := m; ncols := n; entries := ∅ |}.

(** Index handling of cvxopt: an index [i] of a dimension of size [m] is
    accepted when [-m <= i < m], and a negative one counts from the end. *)
Definition OUT_RNG (i m : Z) : bool := (i <? - m) || (m <=? i).
Definition CWRAP (i m : Z) : Z := if 0 <=? i then i else m + i.

(** [A[i, j] = v] *)
Definition sp_setitem (A : spmatrix) (i j : Z) (v : Q) : result spmatrix :=
  if OUT_RNG i (nrows A) || OUT_RNG j (ncols A)
  then Raise (IndexError "index out of range")
  else Ok {| nrows := nrows A; ncols := ncols A;
             entries := <[(CWRAP i (nrows A), CWRAP j (ncols A)) := v]> (entries A) |}.

(** The value of the cell at physical position [(i, j)]. *)
Definition sp_get (A : spmatrix) (i j : Z) : Q :=
  default 0%Q (entries A !! (i, j)).

(** [-A] *)
Definition sp_neg (A : spmatrix) : spmatrix :=
  {| nrows := nrows A; ncols := ncols A; entries := Qopp <$> entries A |}.

(** [matrix(v, (n, 1), 'd')], a dense column, at a non-negative [n]. *)
Definition matrix (v : Q) (n : Z) : list Q := replicate (Z.to_nat n) v.

(** [rho[i] = v] on a dense column. *)
Definition matrix_setitem (rho : list Q) (i : nat) (v : Q) : result (list Q) :=
  if decide (i < length rho)%nat
  then Ok (<[i := v]> rho)
  else Raise (IndexError "index out of range").

(** ** Building the constraints (optimiser.py, lines 111-186) *)

Definition trk_idx (h : Z) : Z := h - 1.

(** [max] over the elements of a set, in the order the set yields them. *)
Definition py_max (l : list Z) : result Z :=
  match l with
  | [] => Raise (ValueError "max() arg is an empty sequence")
  | x :: l' => Ok (foldl Z.max x l')
  end.

(** The body of the loop after the score is stored: the branch on the
    hypothesis type.  [counter] is the column of the hypothesis.  The
    message of the [ValueError] leaves out the rendering of the type. *)
Definition encode (N : Z) (counter : Z) (h : PyHypothesis) (A : spmatrix)
  : result spmatrix :=
  match type h with
  | FALSE_POSITIVE =>
      let trk := trk_idx (ID h) in
      A <~ sp_setitem A trk counter 1;
      sp_setitem A (N + trk) counter 1
  | INITIALIZE =>
      let trk := trk_idx (ID h) in
      sp_setitem A (N + trk) counter 1
  | TERMINATE =>
      let trk := trk_idx (ID h) in
      sp_setitem A trk counter 1
  | APOPTOSIS =>
      let trk := trk_idx (ID h) in
      sp_setitem A trk counter 1
  | LINK =>
      let trk_i := trk_idx (ID h) in
      let trk_j := trk_idx (link_ID h) in
      A <~ sp_setitem A trk_i counter 1;
      sp_setitem A (N + trk_j) counter 1
  | DIVIDE =>
      let trk := trk_idx (ID h) in
      let child_one := trk_idx (child_one_ID h) in
      let child_two := trk_idx (child_two_ID h) in
      A <~ sp_setitem A trk counter 1;
      A <~ sp_setitem A (N + child_one) counter 1;
      sp_setitem A (N + child_two) counter 1
  | MERGE =>
      let trk := trk_idx (ID h) in
      let parent_one := trk_idx (parent_one_ID h) in
      let parent_two := trk_idx (parent_two_ID h) in
      A <~ sp_setitem A (N + trk) counter 1;
      A <~ sp_setitem A parent_one counter 1;
      sp_setitem A parent_two counter 1
  | UNRECOGNISED _ => Raise (ValueError "Unknown hypothesis")
  end.

(** [for counter, h in enumerate(self.hypotheses)], from [counter] on. *)
Fixpoint build_loop (N : Z) (counter : nat) (hs : list PyHypothesis)
    (A : spmatrix) (rho : list Q) : result (spmatrix * list Q) :=
  match hs with
  | [] => Ok (A, rho)
  | h :: hs' =>
      rho <~ matrix_setitem rho counter (log_likelihood h);
      A <~ encode N (Z.of_nat counter) h A;
      build_loop N (S counter) hs' A rho
  end.

(** The state after the loop: [N], the constraint matrix and the scores. *)
Record built := {
  built_N : Z;
  built_A : spmatrix;
  built_rho : list Q
}.

(** Lines 111-186.  [ids] is the sequence of ids that iterating over
    [set([int(h.ID) for h in self.hypotheses])] yields. *)
Definition build_with (ids : list Z) (hypotheses : list PyHypothesis)
  : result built :=
  let n_hypotheses := Z.of_nat (length hypotheses) in
  N <~ py_max ids;
  A <~ spmatrix_new (2 * N, n_hypotheses);
  let rho := matrix 0 n_hypotheses in
  Arho <~ build_loop N 0 hypotheses A rho;
  Ok {| built_N := N; built_A := Arho.1; built_rho := Arho.2 |}.

(** The set of subject ids, and one iteration order over it. *)
Definition id_set (hypotheses : list PyHypothesis) : gset Z :=
  list_to_set (ID <$> hypotheses).

Definition build (hypotheses : list PyHypothesis) : result built :=
  build_with (elements (id_set hypotheses)) hypotheses.

(** ** The integer program (optimiser.py, lines 190-198) *)

(** The seven positional arguments of [cvxopt.glpk.ilp(c, G, h, A, b, I, B)]:
    minimize [c'*x] subject to [G*x <= h], [A*x = b], [x[I]] integer and
    [x[B]] binary. *)
Record ilp_args := {
  ilp_c : list Q;
  ilp_G : spmatrix;
  ilp_h : list Q;
  ilp_A : spmatrix;
  ilp_b : list Q;
  ilp_I : gset nat;
  ilp_B : gset nat
}.

(** A solver returns a status string and a solution ([None] when it has
    none to offer). *)
Definition solver := ilp_args → string * option (list Q).

(** [set(range(n))] *)
Definition range_set (n : nat) : gset nat := list_to_set (seq 0 n).

(** Lines 190-198: the arguments of the call [ilp(-rho, -G, h, A, b, I, B)]. *)
Definition formulate (n_hypotheses : nat) (s : built) : result ilp_args :=
  let N := built_N s in
  G <~ spmatrix_new (2 * N, Z.of_nat n_hypotheses);
  let h := matrix 0 (2 * N) in
  let I : gset nat := ∅ in
  let B := range_set n_hypotheses in
  let b := matrix 1 (2 * N) in
  Ok {| ilp_c := Qopp <$> built_rho s; ilp_G := sp_neg G; ilp_h := h;
        ilp_A := built_A s; ilp_b := b; ilp_I := I; ilp_B := B |}.

(** ** Reading the solution (optimiser.py, lines 200-209) *)

Definition Qgtb (x y : Q) : bool := negb (Qle_bool x y).

(** [[i for i,h in enumerate(self.hypotheses) if x[i]>0]], from index [i]
    on.  Subscripting [None] is a [TypeError], an index past the end of
    the solution an [IndexError]. *)
Fixpoint select_from (i : nat) (hs : list PyHypothesis) (x : option (list Q))
  : result (list nat) :=
  match hs with
  | [] => Ok []
  | _ :: hs' =>
      match x with
      | None => Raise (TypeError "'NoneType' object is not subscriptable")
      | Some xs =>
          match xs !! i with
          | None => Raise (IndexError "index out of range")
          | Some v =>
              results <~ select_from (S i) hs' x;
              Ok (if Qgtb v 0 then i :: results else results)
          end
      end
  end.

Definition select (hypotheses : list PyHypothesis) (x : option (list Q))
  : result (list nat) :=
  select_from 0 hypotheses x.

(** ** Logging *)

Inductive level := INFO | WARNING.

Definition log_record : Type := level * string.

Definition is_warning (r : log_record) : bool :=
  match r.1 with
  | WARNING => true
  | INFO => false
  end.

Definition warnings (log : list log_record) : nat :=
  length (List.filter is_warning log).

(** ** [TrackOptimiser.optimise] *)

(** What a call leaves behind: the records sent to the logger, in order,
    and the value returned or the exception raised. *)
Definition run : Type := list log_record * result (list nat).

Definition log_setup : log_record :=
  (INFO, "Setting up constraints matrix for global optimisation...").
Definition log_optimising : log_record := (INFO, "Optimising...").
Definition log_not_optimal (status : string) : log_record :=
  (WARNING, "Optimizer returned status: " +:+ status).
Definition log_complete (status : string) : log_record :=
  (INFO, "Optimisation complete. (Solution: " +:+ status +:+ ")").

(** Lines 198-209, given what the solver answered. *)
Definition conclude (hypotheses : list PyHypothesis)
    (answer : string * option (list Q)) (log : list log_record) : run :=
  let '(status, x) := answer in
  if negb (String.eqb status "optimal")
  then (log ++ [log_not_optimal status], Ok [])
  else
    match select hypotheses x with
    | Raise e => (log, Raise e)
    | Ok results => (log ++ [log_complete status], Ok results)
    end.

Definition optimise_with (ids : list Z) (ilp : solver)
    (hypotheses : list PyHypothesis) : run :=
  let log := [log_setup] in
  match build_with ids hypotheses with
  | Raise e => (log, Raise e)
  | Ok s =>
      let log := log ++ [log_optimising] in
      match formulate (length hypotheses) s with
      | Raise e => (log, Raise e)
      | Ok P => conclude hypotheses (ilp P) log
      end
  end.

Definition optimise (ilp : solver) (hypotheses : list PyHypothesis) : run :=
  optimise_with (elements (id_set hypotheses)) ilp hypotheses.

(** ** What the solver is asked *)

(** Row [i] of [M] times [x], the columns counted from [j]. *)
Fixpoint row_dot_from (M : spmatrix) (i : Z) (j : nat) (x : list Q) : Q :=
  match x with
  | [] => 0
  | v :: x' => sp_get M i (Z.of_nat j) * v + row_dot_from M i (S j) x'
  end.

Definition row_dot (M : spmatrix) (i : Z) (x : list Q) : Q :=
  row_dot_from M i 0 x.

(** [c'*x] *)
Fixpoint dot (c x : list Q) : Q :=
  match c, x with
  | a :: c', v :: x' => a * v + dot c' x'
  | _, _ => 0
  end.

Definition is_binary (v : Q) : Prop := (v == 0)%Q ∨ (v == 1)%Q.
Definition is_integer (v : Q) : Prop := ∃ z : Z, (v == inject_Z z)%Q.

(** [x] satisfies every constraint of the program [P]. *)
Record feasible (P : ilp_args) (x : list Q) : Prop := {
  feasible_length : length x = Z.to_nat (ncols (ilp_A P));
  feasible_le : ∀ i : nat, (i < Z.to_nat (nrows (ilp_G P)))%nat →
      (row_dot (ilp_G P) (Z.of_nat i) x <= nth i (ilp_h P) 0)%Q;
  feasible_eq : ∀ i : nat, (i < Z.to_nat (nrows (ilp_A P)))%nat →
      (row_dot (ilp_A P) (Z.of_nat i) x == nth i (ilp_b P) 0)%Q;
  feasible_int : ∀ j v, j ∈ ilp_I P → x !! j = Some v → is_integer v;
  feasible_bin : ∀ j v, j ∈ ilp_B P → x !! j = Some v → is_binary v
}.

(** A solver is sound when an answer of optimal comes with a solution,
    the solution is feasible and no feasible point costs less. *)
Definition sound (ilp : solver) : Prop :=
  ∀ P ox, ilp P = ("optimal"%string, ox) →
    ∃ x, ox = Some x ∧ feasible P x ∧
         ∀ y, feasible P y → (dot (ilp_c P) x <= dot (ilp_c P) y)%Q.

(** A solver is complete when it finds an optimum of every feasible
    program whose variables are all binary. *)
Definition complete (ilp : solver) : Prop :=
  ∀ P y, ilp_I P = ∅ → ilp_B P = range_set (Z.to_nat (ncols (ilp_A P))) →
    length (ilp_c P) = Z.to_nat (ncols (ilp_A P)) →
    feasible P y → ∃ x, ilp P = ("optimal"%string, Some x).

(** ** A reference solver

    Exhaustive search over the binary vectors: a stand-in for GLPK on small
    programs, used to run [optimise] on concrete pools. *)

Fixpoint binary_vectors (n : nat) : list (list Q) :=
  match n with
  | O => [[]]
  | S k => (cons 0%Q <$> binary_vectors k) ++ (cons 1%Q <$> binary_vectors k)
  end.

Definition rows_eqb (M : spmatrix) (b x : list Q) : bool :=
  forallb (λ i, Qeq_bool (row_dot M (Z.of_nat i) x) (nth i b 0%Q))
          (seq 0 (Z.to_nat (nrows M))).

Definition rows_leb (M : spmatrix) (h x : list Q) : bool :=
  forallb (λ i, Qle_bool (row_dot M (Z.of_nat i) x) (nth i h 0%Q))
          (seq 0 (Z.to_nat (nrows M))).

Definition feasibleb (P : ilp_args) (x : list Q) : bool :=
  rows_leb (ilp_G P) (ilp_h P) x && rows_eqb (ilp_A P) (ilp_b P) x.

(** The cheapest of [best] and the candidates, the earliest on a tie. *)
Fixpoint argmin (c : list Q) (best : list Q) (cands : list (list Q)) : list Q :=
  match cands with
  | [] => best
  | x :: cands' =>
      argmin c (if Qle_bool (dot c best) (dot c x) then best else x) cands'
  end.

Definition ilp_exhaustive : solver := λ P,
  let n := Z.to_nat (ncols (ilp_A P)) in
  if bool_decide (ilp_I P = ∅ ∧ ilp_B P = range_set n ∧ length (ilp_c P) = n)
  then
    match List.filter (feasibleb P) (binary_vectors n) with
    | [] => ("LP relaxation is primal infeasible"%string, None)
    | x :: cands => ("optimal"%string, Some (argmin (ilp_c P) x cands))
    end
  else ("unknown"%string, None).

(** ** Pools used as examples *)

(** A hypothesis of tracklet [id] with type [t] and score [ll]; [a] and
    [b] fill the references: the target of a link, the two children of a
    division, the two parents of a merge. *)
Definition hypothesis (id : Z) (t : Fates) (ll : Q) (a b : Z) : PyHypothesis :=
  {| ID := id; type := t; log_likelihood := ll;
     link_ID := a; child_one_ID := a; child_two_ID := b;
     parent_one_ID := a; parent_two_ID := b |}.

(** Scenario B of the specification, as given.  The score -0.1 is the
    rational -1/10; the double nearest to it differs by less than 1e-17,
    which changes none of the comparisons made on this pool. *)
Definition scenario_B : list PyHypothesis :=
  [ hypothesis 1 TERMINATE (-2) 0 0;
    hypothesis 2 INITIALIZE (-2) 0 0;
    hypothesis 1 LINK (-1 # 10) 2 0 ].

(** Scenario B with the head of tracklet 1 and the tail of tracklet 2
    explained as well. *)
Definition scenario_B_covered (ll_init ll_term : Q) : list PyHypothesis :=
  scenario_B ++
  [ hypothesis 1 INITIALIZE ll_init 0 0;
    hypothesis 2 TERMINATE ll_term 0 0 ].

(** Scenario A of the specification: one tracklet, started and ended. *)
Definition scenario_A : list PyHypothesis :=
  [ hypothesis 1 INITIALIZE 0 0 0; hypothesis 1 TERMINATE 0 0 0 ].

(** One hypothesis of each of the seven types, over three tracklets. *)
Definition seven_types : list PyHypothesis :=
  [ hypothesis 1 FALSE_POSITIVE 0 0 0;
    hypothesis 2 INITIALIZE 0 0 0;
    hypothesis 3 TERMINATE 0 0 0;
    hypothesis 1 APOPTOSIS 0 0 0;
    hypothesis 1 LINK 0 2 0;
    hypothesis 1 DIVIDE 0 2 3;
    hypothesis 3 MERGE 0 1 2 ].

(** Tracklet 3 alone: ids 1 and 2 never occur. *)
Definition sparse_ids : list PyHypothesis :=
  [ hypothesis 3 INITIALIZE 0 0 0; hypothesis 3 TERMINATE 0 0 0 ].

(** A link to a tracklet beyond the matrix, ahead of a hypothesis of an
    unrecognised type. *)
Definition link_then_unknown : list PyHypothesis :=
  [ hypothesis 1 LINK 0 5 0; hypothesis 1 (UNRECOGNISED 7) 0 0 0 ].

(** A merge whose first parent lies beyond the largest subject id. *)
Definition merge_beyond_max : list PyHypothesis :=
  [ hypothesis 1 MERGE 0 2 1 ].

(** A link into a tracklet that no hypothesis has as its subject. *)
Definition link_beyond_max : list PyHypothesis :=
  [ hypothesis 1 INITIALIZE 0 0 0; hypothesis 1 LINK 0 2 0 ].

(** ** The table of the specification

    The second, independent description of a column of the constraint
    matrix: section 4.2 of the specification, with [t = id - 1], the tail
    slot of a tracklet at row [t] and its head slot at row [N + t]. *)

Definition tail (t : Z) : Z := t.
Definition head (N t : Z) : Z := N + t.

Definition table_rows (N : Z) (h : PyHypothesis) : list Z :=
  let t := ID h - 1 in
  match type h with
  | FALSE_POSITIVE => [tail t; head N t]
  | INITIALIZE => [head N t]
  | TERMINATE => [tail t]
  | APOPTOSIS => [tail t]
  | LINK => [tail t; head N (link_ID h - 1)]
  | DIVIDE => [tail t; head N (child_one_ID h - 1); head N (child_two_ID h - 1)]
  | MERGE => [head N t; tail (parent_one_ID h - 1); tail (parent_two_ID h - 1)]
  | UNRECOGNISED _ => []
  end.

(** The identifiers a hypothesis uses, by its type. *)
Definition references (h : PyHypothesis) : list Z :=
  match type h with
  | LINK => [link_ID h]
  | DIVIDE => [child_one_ID h; child_two_ID h]
  | MERGE => [parent_one_ID h; parent_two_ID h]
  | _ => []
  end.

(** Identifiers are positive integers (section 3 of the specification). *)
Definition positive_ids (h : PyHypothesis) : Prop :=
  1 ≤ ID h ∧ Forall (λ r, 1 ≤ r) (references h).

(** Every reference of the hypothesis names a tracklet of [1..N]. *)
Definition references_within (N : Z) (h : PyHypothesis) : Prop :=
  Forall (λ r, r ≤ N) (references h).

(** ** The loop, one assignment at a time *)

(** The row indices the branch of [encode] for the type of [h] assigns to,
    in the order of the assignments. *)
Definition targets (N : Z) (h : PyHypothesis) : list Z :=
  match type h with
  | FALSE_POSITIVE => [trk_idx (ID h); N + trk_idx (ID h)]
  | INITIALIZE => [N + trk_idx (ID h)]
  | TERMINATE => [trk_idx (ID h)]
  | APOPTOSIS => [trk_idx (ID h)]
  | LINK => [trk_idx (ID h); N + trk_idx (link_ID h)]
  | DIVIDE => [trk_idx (ID h); N + trk_idx (child_one_ID h);
               N + trk_idx (child_two_ID h)]
  | MERGE => [N + trk_idx (ID h); trk_idx (parent_one_ID h);
              trk_idx (parent_two_ID h)]
  | UNRECOGNISED _ => []
  end.

(** [A[i, counter] = 1] for each [i] of [rows], in order. *)
Fixpoint set_rows (A : spmatrix) (rows : list Z) (counter : Z) : result spmatrix :=
  match rows with
  | [] => Ok A
  | i :: rows' => A <~ sp_setitem A i counter 1; set_rows A rows' counter
  end.

(** ** Vocabulary of the statements *)

(** The physical rows the loop writes for [h] in a matrix of [nr] rows. *)
Definition phys_rows (N nr : Z) (h : PyHypothesis) : list Z :=
  (λ t, CWRAP t nr) <$> targets N h.

(** [h] is encoded without error in a matrix of [nr] rows. *)
Definition encodable (N nr : Z) (h : PyHypothesis) : Prop :=
  recognised (type h) = true ∧
  Forall (λ i, OUT_RNG i nr = false) (targets N h).

(** An iteration order of the id set: a sequence with the elements of the
    set. *)
Definition iterates (ids : list Z) (hypotheses : list PyHypothesis) : Prop :=
  ∀ x, x ∈ ids ↔ ∃ h, h ∈ hypotheses ∧ ID h = x.

(** [N] is the largest subject id of the pool. *)
Definition max_id (hypotheses : list PyHypothesis) (N : Z) : Prop :=
  (∃ h, h ∈ hypotheses ∧ ID h = N) ∧ ∀ h, h ∈ hypotheses → ID h ≤ N.

(** A reference that sends an assignment past the last row: for a link
    or a division a target beyond [N], for a merge a parent beyond [2N]. *)
Definition beyond_rows (N : Z) (h : PyHypothesis) : Prop :=
  match type h with
  | LINK => N < link_ID h
  | DIVIDE => N < child_one_ID h ∨ N < child_two_ID h
  | MERGE => 2 * N < parent_one_ID h ∨ 2 * N < parent_two_ID h
  | _ => False
  end.

(** Some hypothesis of the pool writes into row [r]. *)
Definition covers (N : Z) (hypotheses : list PyHypothesis) (r : Z) : Prop :=
  Exists (λ h, r ∈ phys_rows N (2 * N) h) hypotheses.

(** ** The optimiser object (optimiser.py, lines 89-97 and 99) *)

Module TrackOptimiser.

(** The one attribute of an instance. *)
Record t := { _hypotheses : list PyHypothesis }.

Definition __init__ : t := {| _hypotheses := [] |}.

(** The property [hypotheses] and its setter. *)
Definition hypotheses (self : t) : list PyHypothesis := _hypotheses self.

Definition set_hypotheses (self : t) (hypotheses : list PyHypothesis) : t :=
  {| _hypotheses := hypotheses |}.

(** The method [optimise], which reads the pool through the property. *)
Definition optimise (ilp : solver) (self : t) : run :=
  optimise ilp (hypotheses self).

End TrackOptimiser.

(** ** Selections *)

(** Hypothesis [j] of the pool writes into row [r]. *)
Definition written_by (N : Z) (hypotheses : list PyHypothesis) (j : nat) (r : Z)
  : Prop :=
  ∃ h, hypotheses !! j = Some h ∧ r ∈ phys_rows N (2 * N) h.

(** Every row of the matrix is written by one hypothesis of the selection
    and by no other of its hypotheses. *)
Definition exact_cover (N : Z) (hypotheses : list PyHypothesis)
    (sel : list nat) : Prop :=
  ∀ r, 0 ≤ r < 2 * N →
    ∃ j, j ∈ sel ∧ written_by N hypotheses j r ∧
         ∀ j', j' ∈ sel → written_by N hypotheses j' r → j' = j.

(** The 0/1 vector of a selection over [n] hypotheses. *)
Definition indicator (n : nat) (sel : list nat) : list Q :=
  (λ j, if bool_decide (j ∈ sel) then 1%Q else 0%Q) <$> seq 0 n.

(** The sum of the log-likelihoods of the hypotheses selected. *)
Definition score (hypotheses : list PyHypothesis) (sel : list nat) : Q :=
  dot (log_likelihood <$> hypotheses) (indicator (length hypotheses) sel).

(** Entry [j] of [x] is a one. *)
Definition chosen (x : list Q) (j : nat) : Prop :=
  ∃ v, x !! j = Some v ∧ (v == 1)%Q.

#[local] Instance encodable_dec N nr h : Decision (encodable N nr h).
Proof. unfold encodable. apply _. Defined.

(** ** Loading the tracker library (libwrapper.py, lines 68-102) *)

Module LibWrapper.

(** The argument of [load_library], which Python does not type. *)
Inductive value :=
  | Str (s : string)
  | Int (z : Z)
  | NoneValue.

(** The exceptions in play; [OtherError] is an exception of a class that
    is not [IOError], such as the [OSError] of a failed [dlopen]. *)
Inductive exn :=
  | TypeError (msg : string)
  | KeyError (key : string)
  | IOError (msg : string)
  | OtherError (class msg : string).

Inductive outcome (T : Type) :=
  | Return (v : T)
  | Throw (e : exn).
Arguments Return {T} v.
Arguments Throw {T} e.

(** What the function asks of its surroundings: [platform.system()], the
    outcome of the identity test [system is 'Windows'],
    [os.path.splitext] and [ctypes.cdll.LoadLibrary], whose handles are
    numbered. *)
Record environment := {
  platform_system : string;
  system_is_Windows : bool;
  splitext : string → string * string;
  LoadLibrary : string → outcome Z
}.

(** Two objects that are identical are equal. *)
Definition identity_sound (env : environment) : Prop :=
  system_is_Windows env = true → platform_system env = "Windows"%string.

(** What a call does that can be seen from outside, in order. *)
Inductive event :=
  | Logged (r : log_record)
  | Called_LoadLibrary (path : string).

Definition file_ext : gmap string string :=
  {[ "Linux"%string := ".so"%string;
     "Darwin"%string := ".dylib"%string;
     "Windows"%string := ".DLL"%string ]}.

Definition windows_warning : log_record :=
  (WARNING,
   "Windows is not fully supported yet. libtracker.DLL must be compiled."%string).

Definition load_library (env : environment) (filename : value)
  : list event * outcome Z :=
  match filename with
  | Str name =>
      let '(lib_file, ext) := splitext env name in
      let system := platform_system env in
      let trace :=
        if system_is_Windows env then [Logged windows_warning] else [] in
      match file_ext !! system with
      | None => (trace, Throw (KeyError system))
      | Some e =>
          let full_lib_file := (lib_file +:+ e)%string in
          let trace := trace ++ [Called_LoadLibrary full_lib_file] in
          match LoadLibrary env full_lib_file with
          | Return lib =>
              (trace ++ [Logged (INFO, "Loaded btrack: " +:+ full_lib_file)],
               Return lib)
          | Throw (IOError _) =>
              (trace,
               Throw (IOError ("Cannot load shared library " +:+ full_lib_file)))
          | Throw other => (trace, Throw other)
          end
      end
  | _ => ([], Throw (TypeError "Filename must be a string"))
  end.

(** The paths handed to [LoadLibrary] and the records logged. *)
Definition calls (trace : list event) : list string :=
  omap (λ ev, match ev with Called_LoadLibrary p => Some p | _ => None end)
       trace.

Definition records (trace : list event) : list log_record :=
  omap (λ ev, match ev with Logged r => Some r | _ => None end) trace.

End LibWrapper.

(** An environment where the library is not found. *)
Definition linux_without_library : LibWrapper.environment :=
  {| LibWrapper.platform_system := "Linux";
     LibWrapper.system_is_Windows := false;
     LibWrapper.splitext := λ name, (name, ""%string);
     LibWrapper.LoadLibrary := λ path,
       LibWrapper.Throw
         (LibWrapper.OtherError "OSError"
            "cannot open shared object file: No such file or directory") |}.

(** Windows, with the name of the platform the very object of the
    literal, and a loader that finds the library. *)
Definition windows_with_library : LibWrapper.environment :=
  {| LibWrapper.platform_system := "Windows";
     LibWrapper.system_is_Windows := true;
     LibWrapper.splitext := λ name, (name, ""%string);
     LibWrapper.LoadLibrary := λ path, LibWrapper.Return 1 |}.

(** * Properties *)

(** Closes a [Forall] over a concrete list whose elements ask for integer
    bounds. *)
Ltac forall_bounds :=
  repeat first [ apply Forall_nil | apply Forall_cons; split | split ];
  simpl; lia.

(** Reads the cells of a concrete matrix. *)
Ltac read_cells H :=
  repeat match type of H with
         | context [sp_get ?A ?i ?j] =>
             let v := eval vm_compute in (sp_get A i j) in
             let E := fresh "E" in
             assert (sp_get A i j = v) as E by (vm_compute; reflexivity);
             rewrite E in H; clear E
         end.

(** Settles a decidable statement about concrete data. *)
Ltac by_decide :=
  match goal with
  | |- ?G => apply (bool_decide_eq_true_1 G); vm_compute; reflexivity
  end.

Lemma bind_Ok_inv {T U} (m : result T) (k : T → result U) u :
  bind m k = Ok u → ∃ v, m = Ok v ∧ k v = Ok u.
Proof. destruct m; simpl; [eauto | discriminate]. Qed.

(** ** Indices *)

Lemma OUT_RNG_false i m : OUT_RNG i m = false ↔ - m ≤ i < m.
Proof. unfold OUT_RNG. rewrite orb_false_iff, Z.ltb_ge, Z.leb_gt. lia. Qed.

Lemma CWRAP_nonneg i m : 0 ≤ i → CWRAP i m = i.
Proof. unfold CWRAP. intros H. by apply Z.leb_le in H as ->. Qed.

(** ** Assignments to the sparse matrix *)

Lemma sp_setitem_Ok A i j v A' :
  sp_setitem A i j v = Ok A' ↔
  OUT_RNG i (nrows A) = false ∧ OUT_RNG j (ncols A) = false ∧
  A' = {| nrows := nrows A; ncols := ncols A;
          entries := <[(CWRAP i (nrows A), CWRAP j (ncols A)) := v]> (entries A) |}.
Proof.
  unfold sp_setitem.
  destruct (OUT_RNG i (nrows A)), (OUT_RNG j (ncols A)); simpl;
    split; intros H; try done; try (by destruct H as (? & ? & ?));
    [by injection H as <- | by destruct H as (_ & _ & ->)].
Qed.

Lemma encode_set_rows N counter h A :
  encode N counter h A =
  if recognised (type h) then set_rows A (targets N h) counter
  else Raise (ValueError "Unknown hypothesis").
Proof.
  unfold encode, targets.
  destruct (type h); simpl; try reflexivity;
    repeat (match goal with
            | |- context [sp_setitem ?B ?i ?c ?v] =>
                destruct (sp_setitem B i c v); simpl; try reflexivity
            end).
Qed.

Lemma set_rows_Ok A rows counter A' :
  set_rows A rows counter = Ok A' →
  nrows A' = nrows A ∧ ncols A' = ncols A ∧
  Forall (λ i, OUT_RNG i (nrows A) = false) rows ∧
  (rows ≠ [] → OUT_RNG counter (ncols A) = false) ∧
  ∀ i j, entries A' !! (i, j) =
    if decide (j = CWRAP counter (ncols A) ∧
               i ∈ (λ t, CWRAP t (nrows A)) <$> rows)
    then Some 1%Q else entries A !! (i, j).
Proof.
  revert A. induction rows as [|t rows IH]; intros A; simpl.
  - intros [= <-]. split_and!; auto; try done.
    intros i j. case_decide as Hd; [|done].
    destruct Hd as [_ Hd]. by apply elem_of_nil in Hd.
  - intros H. apply bind_Ok_inv in H as (A1 & H1 & H2).
    apply sp_setitem_Ok in H1 as (Hi & Hj & ->).
    apply IH in H2 as (Hr & Hc & Hrows & _ & Hent). simpl in *.
    split_and!; auto.
    intros i j. rewrite Hent.
    destruct (decide (j = CWRAP counter (ncols A) ∧
                      i ∈ (λ t, CWRAP t (nrows A)) <$> rows)) as [[-> Hin]|Hn].
    + rewrite decide_True; [done|]. split; [done|]. by apply elem_of_cons; right.
    + destruct (decide ((CWRAP t (nrows A), CWRAP counter (ncols A)) = (i, j)))
        as [[= <- <-]|Hne].
      * rewrite lookup_insert_eq, decide_True; [done|].
        split; [done|]. by apply elem_of_cons; left.
      * rewrite lookup_insert_ne by done. rewrite decide_False; [done|].
        intros [-> [->|Hin]%elem_of_cons]; [by apply Hne | by apply Hn].
Qed.

Lemma set_rows_in_range A rows counter :
  Forall (λ i, OUT_RNG i (nrows A) = false) rows →
  OUT_RNG counter (ncols A) = false →
  ∃ A', set_rows A rows counter = Ok A'.
Proof.
  revert A. induction rows as [|t rows IH]; intros A Hrows Hc; simpl; [eauto|].
  apply Forall_cons in Hrows as [Ht Hrows].
  unfold sp_setitem. rewrite Ht, Hc. simpl. apply IH; simpl; done.
Qed.

(** ** The loop *)

Lemma targets_nonempty N h : recognised (type h) = true → targets N h ≠ [].
Proof. unfold targets. by destruct (type h). Qed.

Lemma encode_Ok N c h A A' :
  encode N (Z.of_nat c) h A = Ok A' →
  nrows A' = nrows A ∧ ncols A' = ncols A ∧
  encodable N (nrows A) h ∧ Z.of_nat c < ncols A ∧
  ∀ i j, entries A' !! (i, j) =
    if decide (j = Z.of_nat c ∧ i ∈ phys_rows N (nrows A) h)
    then Some 1%Q else entries A !! (i, j).
Proof.
  rewrite encode_set_rows. destruct (recognised (type h)) eqn:Hrec; [|done].
  intros H. apply set_rows_Ok in H as (Hr & Hc & Hrows & Hcol & Hent).
  specialize (Hcol (targets_nonempty N h Hrec)).
  apply OUT_RNG_false in Hcol.
  rewrite CWRAP_nonneg in Hent by lia.
  split_and!; [done|done|by split|lia|done].
Qed.

Lemma matrix_setitem_Ok rho i v rho' :
  matrix_setitem rho i v = Ok rho' ↔ (i < length rho)%nat ∧ rho' = <[i := v]> rho.
Proof.
  unfold matrix_setitem. case_decide as Hlt; split; intros Hx; try done.
  - by injection Hx as <-.
  - by destruct Hx as [_ ->].
  - lia.
Qed.

Lemma build_loop_scores N c hs A rho A' rho' :
  build_loop N c hs A rho = Ok (A', rho') →
  length rho' = length rho ∧
  (c + length hs ≤ max c (length rho))%nat ∧
  (∀ k, (k < c)%nat → rho' !! k = rho !! k) ∧
  (∀ k h, hs !! k = Some h → rho' !! (c + k)%nat = Some (log_likelihood h)).
Proof.
  revert c A rho. induction hs as [|h hs IH]; intros c A rho; simpl.
  - intros [= <- <-]. split_and!; [done|lia|done|]. intros k h. by rewrite lookup_nil.
  - intros H. apply bind_Ok_inv in H as (rho1 & H1 & H).
    apply bind_Ok_inv in H as (A1 & _ & H).
    apply matrix_setitem_Ok in H1 as [Hc ->].
    apply IH in H as (Hlen & Hle & Hbelow & Hat).
    rewrite length_insert in Hlen, Hle.
    split_and!; [done|lia| |].
    + intros k Hk. rewrite Hbelow by lia. apply list_lookup_insert_ne. lia.
    + intros [|k] h'; simpl.
      * intros [= <-]. rewrite Nat.add_0_r, Hbelow by lia.
        by apply list_lookup_insert_eq.
      * intros Hk. rewrite <- (Hat k h' Hk). f_equal. lia.
Qed.

Lemma build_loop_cells N c hs A rho A' rho' :
  build_loop N c hs A rho = Ok (A', rho') →
  nrows A' = nrows A ∧ ncols A' = ncols A ∧
  Forall (encodable N (nrows A)) hs ∧
  (hs ≠ [] → Z.of_nat (c + length hs) ≤ ncols A) ∧
  (∀ i j, j < Z.of_nat c ∨ Z.of_nat (c + length hs) ≤ j →
          entries A' !! (i, j) = entries A !! (i, j)) ∧
  (∀ i k h, hs !! k = Some h →
            entries A' !! (i, Z.of_nat (c + k)) =
            if decide (i ∈ phys_rows N (nrows A) h)
            then Some 1%Q else entries A !! (i, Z.of_nat (c + k))).
Proof.
  revert c A rho. induction hs as [|h hs IH]; intros c A rho; simpl.
  - intros [= <- <-]. split_and!; done.
  - intros H. apply bind_Ok_inv in H as (rho1 & _ & H).
    apply bind_Ok_inv in H as (A1 & H1 & H).
    apply encode_Ok in H1 as (Hr1 & Hc1 & Henc & Hcol & Hent1).
    apply IH in H as (Hr & Hc & Hall & Hwidth & Hout & Hin).
    rewrite Hr1 in *. rewrite Hc1 in *.
    split_and!; [done|done|by constructor| | |].
    + intros _. destruct hs as [|h' hs']; simpl in *; [lia|].
      specialize (Hwidth ltac:(done)). lia.
    + intros i j Hj. rewrite Hout by lia. rewrite Hent1.
      rewrite decide_False; [done|]. lia.
    + intros i [|k] h'; simpl.
      * intros [= <-]. rewrite Nat.add_0_r, Hout by lia. rewrite Hent1.
        destruct (decide (i ∈ phys_rows N (nrows A) h)) as [Hi|Hi].
        -- by rewrite decide_True.
        -- rewrite decide_False; [done|]. tauto.
      * intros Hk. replace (c + S k)%nat with (S c + k)%nat by lia.
        rewrite (Hin i k h' Hk). rewrite Hent1.
        rewrite (decide_False (P := _ ∧ _)); [done|]. lia.
Qed.

Lemma build_loop_total N c hs A rho :
  Forall (encodable N (nrows A)) hs →
  (c + length hs ≤ length rho)%nat →
  Z.of_nat (c + length hs) ≤ ncols A →
  ∃ A' rho', build_loop N c hs A rho = Ok (A', rho').
Proof.
  revert c A rho. induction hs as [|h hs IH]; intros c A rho Hall Hlen Hcol;
    simpl in *; [eauto|].
  apply Forall_cons in Hall as [[Hrec Hrows] Hall].
  unfold matrix_setitem. rewrite decide_True by lia. simpl.
  rewrite encode_set_rows, Hrec.
  destruct (set_rows_in_range A (targets N h) (Z.of_nat c)) as [A1 HA1];
    [done|apply OUT_RNG_false; lia|].
  rewrite HA1. simpl.
  apply set_rows_Ok in HA1 as (Hr & Hc & _).
  apply IH; rewrite ?Hr, ?Hc, ?length_insert; [done|lia|lia].
Qed.

(** ** The maximum of the ids *)

Lemma foldl_max_spec (l : list Z) (x : Z) :
  (foldl Z.max x l = x ∨ foldl Z.max x l ∈ l) ∧
  x ≤ foldl Z.max x l ∧ ∀ y, y ∈ l → y ≤ foldl Z.max x l.
Proof.
  revert x. induction l as [|a l IH]; intros x; simpl.
  - split_and!; [by left|lia|]. intros y Hy. by apply elem_of_nil in Hy.
  - destruct (IH (Z.max x a)) as (Hin & Hle & Hall). split_and!.
    + destruct Hin as [Hin|Hin].
      * rewrite Hin. destruct (Z.max_spec x a) as [[_ ->]|[_ ->]];
          [right; by apply elem_of_cons; left | by left].
      * right. by apply elem_of_cons; right.
    + lia.
    + intros y [->|Hy]%elem_of_cons; [lia | by apply Hall].
Qed.

(** [py_max] returns an element that bounds every element, whatever the
    order of the sequence. *)
Lemma py_max_Ok (l : list Z) (m : Z) :
  py_max l = Ok m ↔ m ∈ l ∧ ∀ y, y ∈ l → y ≤ m.
Proof.
  destruct l as [|x l]; simpl.
  - split; [done|]. intros [H _]. by apply elem_of_nil in H.
  - destruct (foldl_max_spec l x) as (Hin & Hle & Hall). split.
    + intros [= <-]. split.
      * apply elem_of_cons. destruct Hin; [by left | by right].
      * intros y [->|Hy]%elem_of_cons; [done | by apply Hall].
    + intros [Hm Hub]. f_equal.
      assert (foldl Z.max x l ≤ m).
      { apply Hub, elem_of_cons. destruct Hin as [->|Hin]; [by left | by right]. }
      assert (m ≤ foldl Z.max x l).
      { apply elem_of_cons in Hm as [->|Hm]; [done | by apply Hall]. }
      lia.
Qed.

Lemma elem_of_id_set (hypotheses : list PyHypothesis) (x : Z) :
  x ∈ elements (id_set hypotheses) ↔ ∃ h, h ∈ hypotheses ∧ ID h = x.
Proof.
  unfold id_set. rewrite elem_of_elements, elem_of_list_to_set, list_elem_of_fmap.
  split; intros (h & H1 & H2); exists h; by split.
Qed.

Lemma max_id_unique hypotheses N N' :
  max_id hypotheses N → max_id hypotheses N' → N = N'.
Proof.
  intros [(h & Hh & <-) Hub] [(h' & Hh' & <-) Hub'].
  specialize (Hub h' Hh'). specialize (Hub' h Hh). lia.
Qed.

Lemma py_max_max_id ids hypotheses N :
  iterates ids hypotheses → py_max ids = Ok N ↔ max_id hypotheses N.
Proof.
  intros Hit. rewrite py_max_Ok. unfold max_id. rewrite (Hit N).
  split; intros [H1 H2]; (split; [done|]).
  - intros h Hh. apply H2, Hit. eauto.
  - intros y (h & Hh & <-)%Hit. by apply H2.
Qed.

Lemma max_id_exists ids hypotheses :
  iterates ids hypotheses → hypotheses ≠ [] → ∃ N, py_max ids = Ok N.
Proof.
  intros Hit Hne. destruct ids as [|x ids]; simpl; [|eauto].
  destruct hypotheses as [|h hs]; [done|].
  assert (ID h ∈ @nil Z) as Hin by (apply Hit; exists h; split; [left|done]).
  by apply elem_of_nil in Hin.
Qed.

(** ** The build step as a whole *)

Lemma spmatrix_new_Ok m n A :
  spmatrix_new (m, n) = Ok A ↔
  0 ≤ m ∧ 0 ≤ n ∧ A = {| nrows := m; ncols := n; entries := ∅ |}.
Proof.
  unfold spmatrix_new.
  destruct (Z.ltb_spec m 0), (Z.ltb_spec n 0); simpl; split; intros Hx;
    try done; try lia.
  - by injection Hx as <-.
  - by destruct Hx as (_ & _ & ->).
Qed.

Lemma spmatrix_new_raised m n : raised (spmatrix_new (m, n)) ↔ m < 0 ∨ n < 0.
Proof.
  unfold spmatrix_new.
  destruct (Z.ltb_spec m 0), (Z.ltb_spec n 0); simpl; split; intros Hx;
    try (by eexists); try lia; by destruct Hx.
Qed.

Lemma matrix_length v n : length (matrix v n) = Z.to_nat n.
Proof. apply length_replicate. Qed.

Lemma build_with_Ok ids hypotheses s :
  build_with ids hypotheses = Ok s →
  py_max ids = Ok (built_N s) ∧ 0 ≤ built_N s ∧
  nrows (built_A s) = 2 * built_N s ∧
  ncols (built_A s) = Z.of_nat (length hypotheses) ∧
  built_rho s = log_likelihood <$> hypotheses ∧
  Forall (encodable (built_N s) (2 * built_N s)) hypotheses ∧
  (∀ i j, j < 0 ∨ Z.of_nat (length hypotheses) ≤ j →
          entries (built_A s) !! (i, j) = None) ∧
  (∀ i k h, hypotheses !! k = Some h →
            entries (built_A s) !! (i, Z.of_nat k) =
            if decide (i ∈ phys_rows (built_N s) (2 * built_N s) h)
            then Some 1%Q else None).
Proof.
  unfold build_with. intros H.
  apply bind_Ok_inv in H as (N & HN & H).
  apply bind_Ok_inv in H as (A & HA & H).
  apply bind_Ok_inv in H as ([A' rho'] & Hloop & [= <-]). simpl.
  apply spmatrix_new_Ok in HA as (HN0 & _ & ->).
  pose proof (build_loop_scores _ _ _ _ _ _ _ Hloop) as (Hlen & _ & _ & Hat).
  pose proof (build_loop_cells _ _ _ _ _ _ _ Hloop)
    as (Hr & Hc & Hall & _ & Hout & Hin).
  simpl in *. rewrite matrix_length, Nat2Z.id in Hlen.
  split_and!; try done; try lia.
  - apply list_eq. intros k. rewrite list_lookup_fmap.
    destruct (hypotheses !! k) as [h|] eqn:Hk; simpl.
    + by apply Hat.
    + apply lookup_ge_None. apply lookup_ge_None in Hk. lia.
Qed.

Lemma build_with_total ids hypotheses N :
  py_max ids = Ok N → 0 ≤ N →
  Forall (encodable N (2 * N)) hypotheses →
  ∃ s, build_with ids hypotheses = Ok s.
Proof.
  intros HN HN0 Hall. unfold build_with. rewrite HN. cbn [bind].
  destruct (spmatrix_new (2 * N, Z.of_nat (length hypotheses))) as [A|e] eqn:HA.
  - apply spmatrix_new_Ok in HA as (_ & _ & ->). cbn [bind].
    destruct (build_loop_total N 0 hypotheses
                {| nrows := 2 * N; ncols := Z.of_nat (length hypotheses);
                   entries := ∅ |} (matrix 0 (Z.of_nat (length hypotheses))))
      as (A' & rho' & ->); cbn [bind nrows ncols]; eauto.
    + rewrite matrix_length. lia.
    + lia.
  - assert (raised (spmatrix_new (2 * N, Z.of_nat (length hypotheses))))
      as Hr by (by eexists).
    apply spmatrix_new_raised in Hr. lia.
Qed.

(** A hypothesis that is not encodable stops the build. *)
Lemma build_with_raised ids hypotheses :
  (∀ N, py_max ids = Ok N →
        Exists (λ h, ¬ encodable N (2 * N) h) hypotheses) →
  raised (build_with ids hypotheses).
Proof.
  intros Hex. destruct (build_with ids hypotheses) as [s|e] eqn:H; [|by eexists].
  apply build_with_Ok in H as (HN & _ & _ & _ & _ & Hall & _).
  apply Hex, Exists_exists in HN as (h & Hh & Hn).
  rewrite Forall_forall in Hall. destruct Hn. by apply Hall.
Qed.

(** ** Rows within the matrix *)

Lemma targets_table N h : targets N h = table_rows N h.
Proof. unfold targets, table_rows, trk_idx, tail, head. by destruct (type h). Qed.

Lemma targets_in_range N h :
  1 ≤ ID h ≤ N → Forall (λ r, 1 ≤ r ≤ N) (references h) →
  Forall (λ i, 0 ≤ i < 2 * N) (targets N h).
Proof.
  unfold targets, references, trk_idx. intros Hid Hrefs.
  destruct (type h); repeat (apply Forall_cons in Hrefs as [? Hrefs]);
    repeat (apply Forall_cons; split); try apply Forall_nil; lia.
Qed.

Lemma targets_nonneg N h :
  0 ≤ N → positive_ids h → Forall (λ i, 0 ≤ i) (targets N h).
Proof.
  unfold targets, positive_ids, references, trk_idx. intros HN [Hid Hrefs].
  destruct (type h); repeat (apply Forall_cons in Hrefs as [? Hrefs]);
    repeat (apply Forall_cons; split); try apply Forall_nil; lia.
Qed.

Lemma phys_rows_nonneg N nr h :
  Forall (λ i, 0 ≤ i) (targets N h) → phys_rows N nr h = targets N h.
Proof.
  unfold phys_rows. induction 1 as [|t ts Ht _ IH]; [done|].
  rewrite fmap_cons, IH. by rewrite CWRAP_nonneg.
Qed.

Lemma encodable_in_range N h :
  recognised (type h) = true →
  1 ≤ ID h ≤ N → Forall (λ r, 1 ≤ r ≤ N) (references h) →
  encodable N (2 * N) h.
Proof.
  intros Hrec Hid Hrefs. split; [done|].
  eapply Forall_impl; [by apply targets_in_range|].
  intros i Hi. simpl in Hi. apply OUT_RNG_false. lia.
Qed.

Lemma build_iterates hypotheses : iterates (elements (id_set hypotheses)) hypotheses.
Proof. intros x. apply elem_of_id_set. Qed.

Lemma build_max_id hypotheses s :
  build hypotheses = Ok s → max_id hypotheses (built_N s).
Proof.
  intros H. apply build_with_Ok in H as (HN & _).
  by apply (py_max_max_id _ _ _ (build_iterates hypotheses)).
Qed.

(** ** The pattern of a column *)

(** C1.  Column [j] of the constraint matrix that [optimise] builds holds a
    one exactly at the rows of the table of section 4.2 for the type of
    hypothesis [j] and stores nothing (reads as zero) in every other row,
    for each of the seven types; the rows of the table are rows of the
    matrix.  Identifiers are positive, as the data model requires. *)
Theorem C1_column_pattern (hypotheses : list PyHypothesis) (s : built)
    (j : nat) (h : PyHypothesis) :
  build hypotheses = Ok s →
  Forall positive_ids hypotheses →
  hypotheses !! j = Some h →
  recognised (type h) = true ∧
  Forall (λ i, 0 ≤ i < 2 * built_N s) (table_rows (built_N s) h) ∧
  ∀ i : Z,
    entries (built_A s) !! (i, Z.of_nat j) =
      (if decide (i ∈ table_rows (built_N s) h) then Some 1%Q else None) ∧
    sp_get (built_A s) i (Z.of_nat j) =
      (if decide (i ∈ table_rows (built_N s) h) then 1%Q else 0%Q).
Proof.
  intros Hb Hpos Hj.
  apply build_with_Ok in Hb as (_ & HN & _ & _ & _ & Hall & _ & Hin).
  rewrite Forall_forall in Hall, Hpos.
  assert (h ∈ hypotheses) as Hh by (by eapply list_elem_of_lookup_2).
  destruct (Hall h Hh) as [Hrec Hrng].
  pose proof (targets_nonneg (built_N s) h HN (Hpos h Hh)) as Hnn.
  assert (phys_rows (built_N s) (2 * built_N s) h = table_rows (built_N s) h)
    as Hrows by (by rewrite phys_rows_nonneg, targets_table).
  split_and!; [done| |].
  - rewrite <- targets_table. rewrite Forall_forall in Hrng, Hnn.
    apply Forall_forall. intros i Hi.
    specialize (Hrng i Hi). specialize (Hnn i Hi). simpl in *.
    apply OUT_RNG_false in Hrng. lia.
  - intros i. unfold sp_get. rewrite (Hin i j h Hj), Hrows.
    by destruct (decide (i ∈ table_rows (built_N s) h)).
Qed.

Lemma C1_column_pattern_witness :
  ∃ s, build seven_types = Ok s ∧
    Forall positive_ids seven_types ∧
    seven_types !! 5%nat = Some (hypothesis 1 DIVIDE 0 2 3) ∧
    (recognised DIVIDE = true ∧
     Forall (λ i, 0 ≤ i < 2 * built_N s)
            (table_rows (built_N s) (hypothesis 1 DIVIDE 0 2 3)) ∧
     ∀ i : Z,
       entries (built_A s) !! (i, 5) =
         (if decide (i ∈ table_rows (built_N s) (hypothesis 1 DIVIDE 0 2 3))
          then Some 1%Q else None) ∧
       sp_get (built_A s) i 5 =
         (if decide (i ∈ table_rows (built_N s) (hypothesis 1 DIVIDE 0 2 3))
          then 1%Q else 0%Q)).
Proof.
  eexists. split; [vm_compute; reflexivity|].
  assert (Forall positive_ids seven_types) as Hpos.
  { unfold seven_types, positive_ids, references. forall_bounds. }
  split; [exact Hpos|]. split; [reflexivity|].
  apply (C1_column_pattern seven_types _ 5 (hypothesis 1 DIVIDE 0 2 3));
    [vm_compute; reflexivity | exact Hpos | reflexivity].
Defined.

(** ** The program handed to the solver *)

Lemma formulate_Ok n s :
  0 ≤ built_N s →
  formulate n s =
  Ok {| ilp_c := Qopp <$> built_rho s;
        ilp_G := {| nrows := 2 * built_N s; ncols := Z.of_nat n; entries := ∅ |};
        ilp_h := matrix 0 (2 * built_N s);
        ilp_A := built_A s;
        ilp_b := matrix 1 (2 * built_N s);
        ilp_I := ∅;
        ilp_B := range_set n |}.
Proof.
  intros HN. unfold formulate.
  destruct (spmatrix_new (2 * built_N s, Z.of_nat n)) as [G|e] eqn:HG.
  - apply spmatrix_new_Ok in HG as (_ & _ & ->). cbn [bind].
    unfold sp_neg. cbn [nrows ncols entries]. by rewrite fmap_empty.
  - assert (raised (spmatrix_new (2 * built_N s, Z.of_nat n))) as Hr
      by (by eexists).
    apply spmatrix_new_raised in Hr. lia.
Qed.

Lemma build_formulate hypotheses s :
  build hypotheses = Ok s →
  ∃ P, formulate (length hypotheses) s = Ok P ∧
       ilp_c P = (λ h, - log_likelihood h)%Q <$> hypotheses ∧
       ilp_G P = {| nrows := 2 * built_N s;
                    ncols := Z.of_nat (length hypotheses); entries := ∅ |} ∧
       ilp_h P = replicate (Z.to_nat (2 * built_N s)) 0%Q ∧
       ilp_A P = built_A s ∧
       ilp_b P = replicate (Z.to_nat (2 * built_N s)) 1%Q ∧
       ilp_I P = ∅ ∧
       ilp_B P = range_set (length hypotheses).
Proof.
  intros Hb. apply build_with_Ok in Hb as (_ & HN & _ & _ & Hrho & _).
  eexists. split; [by apply formulate_Ok|]. cbn.
  split_and!; try done. rewrite Hrho, <- list_fmap_compose. done.
Qed.

Lemma optimise_build_raised ids ilp hypotheses e :
  build_with ids hypotheses = Raise e →
  optimise_with ids ilp hypotheses = ([log_setup], Raise e).
Proof. unfold optimise_with. by intros ->. Qed.

Lemma optimise_built ids ilp hypotheses s P :
  build_with ids hypotheses = Ok s →
  formulate (length hypotheses) s = Ok P →
  optimise_with ids ilp hypotheses =
  conclude hypotheses (ilp P) [log_setup; log_optimising].
Proof. unfold optimise_with. by intros -> ->. Qed.

(** C3.  For a non-empty pool [N] is the largest subject id; whenever the
    build goes through, the constraint matrix has [2N] rows and one column
    per hypothesis and the right-hand side handed to the solver is [2N]
    ones.  The build goes through for every pool of recognised hypotheses
    whose ids and references lie in [1..N], whether or not every id of
    [1..N] occurs: density is not checked. *)
Theorem C3_shape (hypotheses : list PyHypothesis) :
  hypotheses ≠ [] →
  ∃ N, max_id hypotheses N ∧
    (∀ s, build hypotheses = Ok s →
       built_N s = N ∧
       nrows (built_A s) = 2 * N ∧
       ncols (built_A s) = Z.of_nat (length hypotheses) ∧
       length (built_rho s) = length hypotheses ∧
       ∃ P, formulate (length hypotheses) s = Ok P ∧
            ilp_A P = built_A s ∧
            ilp_b P = replicate (Z.to_nat (2 * N)) 1%Q) ∧
    (1 ≤ N →
     Forall (λ h, recognised (type h) = true ∧ positive_ids h ∧
                  references_within N h) hypotheses →
     ∃ s, build hypotheses = Ok s).
Proof.
  intros Hne.
  destruct (max_id_exists _ _ (build_iterates hypotheses) Hne) as [N HN].
  pose proof HN as Hmax.
  apply (py_max_max_id _ _ _ (build_iterates hypotheses)) in Hmax.
  exists N. split_and!; [done| |].
  - intros s Hb. pose proof (build_max_id _ _ Hb) as Hmax'.
    pose proof (max_id_unique _ _ _ Hmax' Hmax) as HNs.
    destruct (build_formulate _ _ Hb)
      as (P & HP & _ & _ & _ & HA & Hbv & _).
    apply build_with_Ok in Hb as (_ & _ & Hr & Hc & Hrho & _).
    rewrite <- HNs. split_and!; try done.
    + by rewrite Hrho, length_fmap.
    + by exists P.
  - intros HN1 Hall. apply (build_with_total _ _ N HN); [lia|].
    rewrite Forall_forall in Hall. apply Forall_forall. intros h Hh.
    destruct (Hall h Hh) as (Hrec & [Hid Hpos] & Hwithin).
    apply encodable_in_range; [done| |].
    + destruct Hmax as [_ Hub]. split; [done | by apply Hub].
    + unfold references_within in Hwithin.
      rewrite Forall_forall in Hpos, Hwithin. apply Forall_forall.
      intros r Hr. split; [by apply Hpos | by apply Hwithin].
Qed.

Lemma C3_shape_witness :
  sparse_ids ≠ [] ∧
  ∃ N, max_id sparse_ids N ∧
    (∀ s, build sparse_ids = Ok s →
       built_N s = N ∧
       nrows (built_A s) = 2 * N ∧
       ncols (built_A s) = Z.of_nat (length sparse_ids) ∧
       length (built_rho s) = length sparse_ids ∧
       ∃ P, formulate (length sparse_ids) s = Ok P ∧
            ilp_A P = built_A s ∧
            ilp_b P = replicate (Z.to_nat (2 * N)) 1%Q) ∧
    (1 ≤ N →
     Forall (λ h, recognised (type h) = true ∧ positive_ids h ∧
                  references_within N h) sparse_ids →
     ∃ s, build sparse_ids = Ok s).
Proof.
  split; [discriminate|].
  apply (C3_shape sparse_ids). discriminate.
Defined.

(** ** Reading the answer of the solver *)

Lemma Qgtb_true (v : Q) : Qgtb v 0 = true ↔ (0 < v)%Q.
Proof.
  unfold Qgtb. rewrite negb_true_iff. split.
  - intros H. apply Qnot_le_lt. intros Hle. apply Qle_bool_iff in Hle. congruence.
  - intros H. destruct (Qle_bool v 0) eqn:Hle; [|done].
    apply Qle_bool_iff in Hle. by apply Qlt_not_le in H.
Qed.

Lemma select_from_Ok i hs xs :
  (i + length hs ≤ length xs)%nat →
  select_from i hs (Some xs) =
  Ok (List.filter (λ j, Qgtb (nth j xs 0%Q) 0) (seq i (length hs))).
Proof.
  revert i. induction hs as [|h hs IH]; intros i Hlen; simpl in *; [done|].
  destruct (lookup_lt_is_Some_2 xs i) as [v Hv]; [lia|].
  rewrite Hv, (nth_lookup_Some _ _ _ _ Hv), IH by lia. done.
Qed.

Lemma filter_seq_sorted (f : nat → bool) i n :
  StronglySorted lt (List.filter f (seq i n)).
Proof.
  revert i. induction n as [|n IH]; intros i; simpl; [constructor|].
  destruct (f i); [|apply IH]. constructor; [apply IH|].
  apply List.Forall_forall. intros j Hj.
  apply filter_In in Hj as [Hj _]. apply in_seq in Hj. lia.
Qed.

Lemma conclude_not_optimal hypotheses status x log :
  status ≠ "optimal"%string →
  conclude hypotheses (status, x) log = (log ++ [log_not_optimal status], Ok []).
Proof.
  intros Hne. unfold conclude.
  by apply String.eqb_neq in Hne as ->.
Qed.

Lemma conclude_optimal hypotheses x log :
  (length hypotheses ≤ length x)%nat →
  conclude hypotheses ("optimal"%string, Some x) log =
  (log ++ [log_complete "optimal"],
   Ok (List.filter (λ j, Qgtb (nth j x 0%Q) 0) (seq 0 (length hypotheses)))).
Proof.
  intros Hlen. unfold conclude, select.
  rewrite String.eqb_refl. cbn [negb].
  by rewrite select_from_Ok by lia.
Qed.

(** C4.  When the build goes through and the solver answers with any
    status but optimal, [optimise] returns the empty list, raises nothing
    and logs one warning, after its two informational records. *)
Theorem C4_non_optimal (ilp : solver) (hypotheses : list PyHypothesis)
    (s : built) (P : ilp_args) (status : string) (x : option (list Q)) :
  build hypotheses = Ok s →
  formulate (length hypotheses) s = Ok P →
  ilp P = (status, x) →
  status ≠ "optimal"%string →
  optimise ilp hypotheses =
    ([log_setup; log_optimising; log_not_optimal status], Ok []) ∧
  warnings (optimise ilp hypotheses).1 = 1%nat.
Proof.
  intros Hb HP Hilp Hne.
  unfold optimise. rewrite (optimise_built _ _ _ _ _ Hb HP), Hilp.
  by rewrite conclude_not_optimal.
Qed.

Lemma C4_non_optimal_witness :
  ∃ s P x,
    build scenario_B = Ok s ∧
    formulate (length scenario_B) s = Ok P ∧
    ilp_exhaustive P = ("LP relaxation is primal infeasible"%string, x) ∧
    "LP relaxation is primal infeasible"%string ≠ "optimal"%string ∧
    optimise ilp_exhaustive scenario_B =
      ([log_setup; log_optimising;
        log_not_optimal "LP relaxation is primal infeasible"], Ok []) ∧
    warnings (optimise ilp_exhaustive scenario_B).1 = 1%nat.
Proof.
  do 3 eexists.
  split; [vm_compute; reflexivity|].
  split; [vm_compute; reflexivity|].
  split; [vm_compute; reflexivity|].
  split; [discriminate|].
  eapply (C4_non_optimal ilp_exhaustive scenario_B);
    [vm_compute; reflexivity | vm_compute; reflexivity
     | vm_compute; reflexivity | discriminate].
Defined.

(** C6.  When the solver answers optimal with a solution [x] that has an
    entry for every hypothesis, [optimise] returns the indices [j] with
    [x[j] > 0], each of them and no other, in increasing order. *)
Theorem C6_selection (ilp : solver) (hypotheses : list PyHypothesis)
    (s : built) (P : ilp_args) (x : list Q) :
  build hypotheses = Ok s →
  formulate (length hypotheses) s = Ok P →
  ilp P = ("optimal"%string, Some x) →
  (length hypotheses ≤ length x)%nat →
  ∃ results,
    optimise ilp hypotheses =
      ([log_setup; log_optimising; log_complete "optimal"], Ok results) ∧
    results = List.filter (λ j, Qgtb (nth j x 0%Q) 0)
                          (seq 0 (length hypotheses)) ∧
    (∀ j, j ∈ results ↔
          (j < length hypotheses)%nat ∧ ∃ v, x !! j = Some v ∧ (0 < v)%Q) ∧
    StronglySorted lt results.
Proof.
  intros Hb HP Hilp Hlen. eexists. split_and!.
  - unfold optimise. rewrite (optimise_built _ _ _ _ _ Hb HP), Hilp.
    by rewrite conclude_optimal.
  - done.
  - intros j. rewrite list_elem_of_In, filter_In, in_seq, Qgtb_true. split.
    + intros [Hj Hv]. split; [lia|].
      destruct (lookup_lt_is_Some_2 x j) as [v Hxj]; [lia|].
      exists v. split; [done|]. by rewrite (nth_lookup_Some _ _ _ _ Hxj) in Hv.
    + intros (Hj & v & Hxj & Hv). split; [lia|].
      by rewrite (nth_lookup_Some _ _ _ _ Hxj).
  - apply filter_seq_sorted.
Qed.

Lemma C6_selection_witness :
  ∃ s P x,
    build scenario_A = Ok s ∧
    formulate (length scenario_A) s = Ok P ∧
    ilp_exhaustive P = ("optimal"%string, Some x) ∧
    (length scenario_A ≤ length x)%nat ∧
    ∃ results,
      optimise ilp_exhaustive scenario_A =
        ([log_setup; log_optimising; log_complete "optimal"], Ok results) ∧
      results = List.filter (λ j, Qgtb (nth j x 0%Q) 0)
                            (seq 0 (length scenario_A)) ∧
      (∀ j, j ∈ results ↔
            (j < length scenario_A)%nat ∧ ∃ v, x !! j = Some v ∧ (0 < v)%Q) ∧
      StronglySorted lt results.
Proof.
  do 3 eexists.
  split; [vm_compute; reflexivity|].
  split; [vm_compute; reflexivity|].
  split; [vm_compute; reflexivity|].
  split; [simpl; lia|].
  eapply (C6_selection ilp_exhaustive scenario_A);
    [vm_compute; reflexivity | vm_compute; reflexivity
     | vm_compute; reflexivity | simpl; lia].
Defined.

(** ** Feasible points *)

Lemma row_dot_from_zero (M : spmatrix) (i : Z) (j : nat) (x : list Q) :
  (∀ k, sp_get M i k = 0%Q) → (row_dot_from M i j x == 0)%Q.
Proof.
  intros Hz. revert j. induction x as [|v x IH]; intros j; simpl; [reflexivity|].
  rewrite Hz, IH. ring.
Qed.

Lemma row_dot_no_entries (M : spmatrix) (i : Z) (x : list Q) :
  entries M = ∅ → (row_dot M i x == 0)%Q.
Proof.
  intros HM. apply row_dot_from_zero. intros k.
  unfold sp_get. by rewrite HM, lookup_empty.
Qed.

Lemma nth_replicate_default (v : Q) (n i : nat) : nth i (replicate n v) v = v.
Proof.
  rewrite nth_lookup. destruct (replicate n v !! i) as [w|] eqn:Hw; [|done].
  by apply lookup_replicate in Hw as [-> _].
Qed.

Lemma nth_replicate_lt (v d : Q) (n i : nat) :
  (i < n)%nat → nth i (replicate n v) d = v.
Proof. intros Hi. apply nth_lookup_Some. by apply lookup_replicate_2. Qed.

Lemma elem_of_range_set (n j : nat) : j ∈ range_set n ↔ (j < n)%nat.
Proof. unfold range_set. rewrite elem_of_list_to_set, elem_of_seq. lia. Qed.

(** The feasible points of a program with no effective inequality, no
    integer variable, every variable binary and a right-hand side of ones. *)
Lemma feasible_binary_program (P : ilp_args) (n rows : nat) (x : list Q) :
  entries (ilp_G P) = ∅ →
  ilp_h P = replicate (Z.to_nat (nrows (ilp_G P))) 0%Q →
  ncols (ilp_A P) = Z.of_nat n →
  nrows (ilp_A P) = Z.of_nat rows →
  ilp_b P = replicate rows 1%Q →
  ilp_I P = ∅ →
  ilp_B P = range_set n →
  feasible P x ↔
    length x = n ∧ Forall is_binary x ∧
    ∀ i, (i < rows)%nat → (row_dot (ilp_A P) (Z.of_nat i) x == 1)%Q.
Proof.
  intros HG Hh Hc Hr Hb HI HB. split.
  - intros [Hlen _ Heq _ Hbin]. rewrite Hc, Nat2Z.id in Hlen.
    split_and!; [done| |].
    + apply Forall_lookup. intros j v Hj. apply (Hbin j v); [|done].
      rewrite HB. apply elem_of_range_set.
      apply lookup_lt_Some in Hj. lia.
    + intros i Hi. rewrite (Heq i) by lia.
      by rewrite Hb, nth_replicate_lt.
  - intros (Hlen & Hbin & Heq). split.
    + by rewrite Hc, Nat2Z.id.
    + intros i Hi. rewrite row_dot_no_entries by done.
      rewrite Hh, nth_replicate_default. apply Qle_refl.
    + intros i Hi. rewrite Hb, nth_replicate_lt by lia. apply Heq. lia.
    + intros j v Hj. rewrite HI in Hj. by apply not_elem_of_empty in Hj.
    + intros j v _ Hj. by eapply Forall_lookup_1.
Qed.

Lemma build_feasible hypotheses s P x :
  build hypotheses = Ok s →
  formulate (length hypotheses) s = Ok P →
  feasible P x ↔
    length x = length hypotheses ∧ Forall is_binary x ∧
    ∀ i, (i < Z.to_nat (2 * built_N s))%nat →
         (row_dot (built_A s) (Z.of_nat i) x == 1)%Q.
Proof.
  intros Hb HP.
  destruct (build_formulate _ _ Hb) as (P' & HP' & _ & HG & Hh & HA & Hbv & HI & HB).
  assert (P' = P) as -> by congruence.
  apply build_with_Ok in Hb as (_ & HN & Hr & Hc & _).
  rewrite <- HA.
  apply feasible_binary_program; rewrite ?HG, ?HA; cbn [entries nrows]; try done.
  rewrite Hr. lia.
Qed.

(** C2.  The program that [optimise] hands to the solver: the cost of
    hypothesis [j] is the negation of its log-likelihood; [A] is the
    matrix built and [b] is all ones; [G] stores nothing and its right-hand
    side is zero, so [G*x <= h] holds of every [x]; the set of integer
    variables is empty and the set of binary variables is [0..n-1].  Its
    feasible points are the binary vectors of length [n] with [A*x = 1],
    and the outcome of [optimise] is read off the answer to this one
    call. *)
Theorem C2_program (hypotheses : list PyHypothesis) (s : built) :
  build hypotheses = Ok s →
  ∃ P, formulate (length hypotheses) s = Ok P ∧
    (∀ ilp : solver,
       optimise ilp hypotheses =
       conclude hypotheses (ilp P) [log_setup; log_optimising]) ∧
    ilp_c P = (λ h, - log_likelihood h)%Q <$> hypotheses ∧
    ilp_A P = built_A s ∧
    ilp_b P = replicate (Z.to_nat (2 * built_N s)) 1%Q ∧
    entries (ilp_G P) = ∅ ∧
    (∀ x (i : nat),
       (row_dot (ilp_G P) (Z.of_nat i) x <= nth i (ilp_h P) 0)%Q) ∧
    ilp_I P = ∅ ∧
    (∀ j, j ∈ ilp_B P ↔ (j < length hypotheses)%nat) ∧
    (∀ x, feasible P x ↔
          length x = length hypotheses ∧ Forall is_binary x ∧
          ∀ i, (i < Z.to_nat (2 * built_N s))%nat →
               (row_dot (built_A s) (Z.of_nat i) x == 1)%Q).
Proof.
  intros Hb.
  destruct (build_formulate _ _ Hb) as (P & HP & Hcost & HG & Hh & HA & Hbv & HI & HB).
  exists P. split_and!; try done.
  - intros ilp. by apply (optimise_built _ _ _ s).
  - by rewrite HG.
  - intros x i. rewrite row_dot_no_entries by (by rewrite HG).
    rewrite Hh, nth_replicate_default. apply Qle_refl.
  - intros j. rewrite HB. apply elem_of_range_set.
  - intros x. by apply build_feasible.
Qed.

Lemma C2_program_witness :
  ∃ s, build scenario_B = Ok s ∧
  ∃ P, formulate (length scenario_B) s = Ok P ∧
    (∀ ilp : solver,
       optimise ilp scenario_B =
       conclude scenario_B (ilp P) [log_setup; log_optimising]) ∧
    ilp_c P = (λ h, - log_likelihood h)%Q <$> scenario_B ∧
    ilp_A P = built_A s ∧
    ilp_b P = replicate (Z.to_nat (2 * built_N s)) 1%Q ∧
    entries (ilp_G P) = ∅ ∧
    (∀ x (i : nat),
       (row_dot (ilp_G P) (Z.of_nat i) x <= nth i (ilp_h P) 0)%Q) ∧
    ilp_I P = ∅ ∧
    (∀ j, j ∈ ilp_B P ↔ (j < length scenario_B)%nat) ∧
    (∀ x, feasible P x ↔
          length x = length scenario_B ∧ Forall is_binary x ∧
          ∀ i, (i < Z.to_nat (2 * built_N s))%nat →
               (row_dot (built_A s) (Z.of_nat i) x == 1)%Q).
Proof.
  eexists. split; [vm_compute; reflexivity|].
  apply (C2_program scenario_B). vm_compute; reflexivity.
Defined.

(** ** Iteration order of the id set *)

Lemma py_max_iterates ids1 ids2 hypotheses :
  iterates ids1 hypotheses → iterates ids2 hypotheses →
  py_max ids1 = py_max ids2.
Proof.
  intros H1 H2. destruct hypotheses as [|h hs].
  - assert (∀ ids, iterates ids [] → ids = []) as Hnil.
    { intros [|x ids] Hit; [done|].
      destruct (proj1 (Hit x)) as (h & Hh & _); [by left|].
      by apply elem_of_nil in Hh. }
    by rewrite (Hnil _ H1), (Hnil _ H2).
  - destruct (max_id_exists _ _ H1) as [N1 HN1]; [done|].
    destruct (max_id_exists _ _ H2) as [N2 HN2]; [done|].
    rewrite HN1, HN2. f_equal.
    apply (max_id_unique (h :: hs)).
    + by apply (py_max_max_id ids1).
    + by apply (py_max_max_id ids2).
Qed.

Lemma iterates_by_set ids hypotheses :
  (list_to_set ids : gset Z) = id_set hypotheses → iterates ids hypotheses.
Proof.
  intros Heq x. rewrite <- elem_of_id_set, elem_of_elements, <- Heq.
  by rewrite elem_of_list_to_set.
Qed.

(** C8.  Two runs on the same pool, each free to iterate over the set of
    ids in an order of its own, build the same constraint matrix and the
    same scores, pose the same program, and, the solver being a function
    of the program, end with the same log and the same selection.
    [optimise] is one such run. *)
Theorem C8_deterministic (hypotheses : list PyHypothesis) (ids1 ids2 : list Z) :
  iterates ids1 hypotheses →
  iterates ids2 hypotheses →
  build_with ids1 hypotheses = build_with ids2 hypotheses ∧
  (∀ s1 s2, build_with ids1 hypotheses = Ok s1 →
            build_with ids2 hypotheses = Ok s2 →
            built_A s1 = built_A s2 ∧
            formulate (length hypotheses) s1 = formulate (length hypotheses) s2) ∧
  (∀ ilp : solver,
     optimise_with ids1 ilp hypotheses = optimise_with ids2 ilp hypotheses ∧
     optimise ilp hypotheses = optimise_with ids1 ilp hypotheses).
Proof.
  intros H1 H2.
  assert (∀ ids ids', iterates ids hypotheses → iterates ids' hypotheses →
            build_with ids hypotheses = build_with ids' hypotheses) as Hbuild.
  { intros ids ids' Hi Hi'. unfold build_with.
    by rewrite (py_max_iterates _ _ _ Hi Hi'). }
  split_and!.
  - by apply Hbuild.
  - intros s1 s2 Hs1 Hs2. rewrite (Hbuild _ _ H1 H2), Hs2 in Hs1.
    by injection Hs1 as ->.
  - intros ilp. unfold optimise, optimise_with.
    rewrite (Hbuild ids1 ids2 H1 H2).
    by rewrite (Hbuild _ ids2 (build_iterates hypotheses) H2).
Qed.

Lemma C8_deterministic_witness :
  iterates [1; 2] scenario_B ∧
  iterates [2; 1; 2] scenario_B ∧
  build_with [1; 2] scenario_B = build_with [2; 1; 2] scenario_B ∧
  (∀ s1 s2, build_with [1; 2] scenario_B = Ok s1 →
            build_with [2; 1; 2] scenario_B = Ok s2 →
            built_A s1 = built_A s2 ∧
            formulate (length scenario_B) s1 = formulate (length scenario_B) s2) ∧
  (∀ ilp : solver,
     optimise_with [1; 2] ilp scenario_B = optimise_with [2; 1; 2] ilp scenario_B ∧
     optimise ilp scenario_B = optimise_with [1; 2] ilp scenario_B).
Proof.
  assert (iterates [1; 2] scenario_B) as H1
    by (apply iterates_by_set; vm_compute; reflexivity).
  assert (iterates [2; 1; 2] scenario_B) as H2
    by (apply iterates_by_set; vm_compute; reflexivity).
  split; [exact H1|]. split; [exact H2|].
  exact (C8_deterministic scenario_B [1; 2] [2; 1; 2] H1 H2).
Defined.

(** ** Failures of the build step *)

Lemma build_loop_unknown N c pre u post A rho :
  Forall (encodable N (nrows A)) pre →
  recognised (type u) = false →
  (c + length (pre ++ u :: post) ≤ length rho)%nat →
  Z.of_nat (c + length (pre ++ u :: post)) ≤ ncols A →
  build_loop N c (pre ++ u :: post) A rho =
  Raise (ValueError "Unknown hypothesis").
Proof.
  revert c A rho. induction pre as [|h pre IH]; intros c A rho Hall Hu Hlen Hcol;
    simpl in *.
  - unfold matrix_setitem. rewrite decide_True by lia. cbn [bind].
    by rewrite encode_set_rows, Hu.
  - apply Forall_cons in Hall as [[Hrec Hrows] Hall].
    unfold matrix_setitem. rewrite decide_True by lia. cbn [bind].
    rewrite encode_set_rows, Hrec.
    destruct (set_rows_in_range A (targets N h) (Z.of_nat c)) as [A1 HA1];
      [done|apply OUT_RNG_false; lia|].
    rewrite HA1. cbn [bind].
    apply set_rows_Ok in HA1 as (Hr & Hc & _).
    apply IH; rewrite ?Hr, ?Hc, ?length_insert; [done|done|lia|lia].
Qed.

Lemma not_encodable_unrecognised N nr h :
  recognised (type h) = false → ¬ encodable N nr h.
Proof. intros Hu [Hrec _]. congruence. Qed.

Lemma build_raised_optimise hypotheses :
  raised (build hypotheses) →
  ∃ e, build hypotheses = Raise e ∧
       ∀ ilp : solver, optimise ilp hypotheses = ([log_setup], Raise e).
Proof.
  intros [e He]. exists e. split; [done|].
  intros ilp. by apply optimise_build_raised.
Qed.

(** C5, as the code has it.  A pool with a hypothesis of an unrecognised
    type makes [optimise] raise during the build, whatever the solver, with
    only the first record logged: the solver is not reached and nothing is
    returned.  The exception is the [ValueError] of the unknown-type branch
    when [N] is not negative and every hypothesis before the first
    unrecognised one is encoded without error. *)
Theorem C5_unknown_type (pre post : list PyHypothesis) (u : PyHypothesis) :
  recognised (type u) = false →
  (∃ e, build (pre ++ u :: post) = Raise e ∧
        ∀ ilp : solver,
          optimise ilp (pre ++ u :: post) = ([log_setup], Raise e)) ∧
  (∀ N, max_id (pre ++ u :: post) N → 0 ≤ N →
        Forall (encodable N (2 * N)) pre →
        ∀ ilp : solver,
          optimise ilp (pre ++ u :: post) =
          ([log_setup], Raise (ValueError "Unknown hypothesis"))).
Proof.
  intros Hu. split.
  - apply build_raised_optimise, build_with_raised.
    intros N _. apply Exists_exists. exists u. split.
    + apply elem_of_app. right. by left.
    + by apply not_encodable_unrecognised.
  - intros N Hmax HN Hpre ilp. apply optimise_build_raised.
    unfold build_with.
    apply (py_max_max_id _ _ _ (build_iterates (pre ++ u :: post))) in Hmax.
    rewrite Hmax. cbn [bind].
    destruct (spmatrix_new (2 * N, Z.of_nat (length (pre ++ u :: post))))
      as [A|e] eqn:HA.
    + apply spmatrix_new_Ok in HA as (_ & _ & ->). cbn [bind].
      rewrite build_loop_unknown; cbn [nrows ncols]; try done; try lia.
      rewrite matrix_length. lia.
    + assert (raised (spmatrix_new (2 * N, Z.of_nat (length (pre ++ u :: post)))))
        as Hr by (by eexists).
      apply spmatrix_new_raised in Hr. lia.
Qed.

(** The claim as stated fails: the exception is the [IndexError] of the
    assignment, not a [ValueError]. *)
Lemma C5_counterexample :
  Exists (λ h, recognised (type h) = false) link_then_unknown ∧
  optimise ilp_exhaustive link_then_unknown =
    ([log_setup], Raise (IndexError "index out of range")).
Proof.
  split; [|vm_compute; reflexivity].
  apply Exists_cons. right. apply Exists_cons. by left.
Qed.

Lemma C5_unknown_type_witness :
  recognised (type (hypothesis 2 (UNRECOGNISED 7) 0 0 0)) = false ∧
  max_id ([hypothesis 1 TERMINATE 0 0 0] ++
          hypothesis 2 (UNRECOGNISED 7) 0 0 0 :: [hypothesis 1 LINK 0 2 0]) 2 ∧
  Forall (encodable 2 (2 * 2)) [hypothesis 1 TERMINATE 0 0 0] ∧
  (∃ e, build ([hypothesis 1 TERMINATE 0 0 0] ++
               hypothesis 2 (UNRECOGNISED 7) 0 0 0 ::
               [hypothesis 1 LINK 0 2 0]) = Raise e ∧
        ∀ ilp : solver,
          optimise ilp ([hypothesis 1 TERMINATE 0 0 0] ++
                        hypothesis 2 (UNRECOGNISED 7) 0 0 0 ::
                        [hypothesis 1 LINK 0 2 0]) = ([log_setup], Raise e)) ∧
  (∀ ilp : solver,
     optimise ilp ([hypothesis 1 TERMINATE 0 0 0] ++
                   hypothesis 2 (UNRECOGNISED 7) 0 0 0 ::
                   [hypothesis 1 LINK 0 2 0]) =
     ([log_setup], Raise (ValueError "Unknown hypothesis"))).
Proof.
  assert (max_id ([hypothesis 1 TERMINATE 0 0 0] ++
                  hypothesis 2 (UNRECOGNISED 7) 0 0 0 ::
                  [hypothesis 1 LINK 0 2 0]) 2) as Hmax.
  { apply (py_max_max_id _ _ _ (build_iterates _)). vm_compute. reflexivity. }
  assert (Forall (encodable 2 (2 * 2)) [hypothesis 1 TERMINATE 0 0 0]) as Hpre.
  { repeat first [ apply Forall_nil | apply Forall_cons; split | split ];
      reflexivity. }
  destruct (C5_unknown_type [hypothesis 1 TERMINATE 0 0 0]
              [hypothesis 1 LINK 0 2 0] (hypothesis 2 (UNRECOGNISED 7) 0 0 0)
              eq_refl) as [HA HB].
  split; [reflexivity|]. split; [exact Hmax|]. split; [exact Hpre|].
  split; [exact HA|].
  exact (HB 2 Hmax ltac:(lia) Hpre).
Defined.

Lemma beyond_rows_not_encodable N h : beyond_rows N h → ¬ encodable N (2 * N) h.
Proof.
  unfold beyond_rows, encodable, targets, trk_idx. intros Hb [_ Hrng].
  destruct (type h); try done;
    repeat (apply Forall_cons in Hrng as [?%OUT_RNG_false Hrng]); lia.
Qed.

Lemma max_id_ids hypotheses N :
  max_id hypotheses N ↔
  N ∈ ID <$> hypotheses ∧ ∀ x, x ∈ ID <$> hypotheses → x ≤ N.
Proof.
  unfold max_id. rewrite list_elem_of_fmap. split.
  - intros [(h & Hh & <-) Hub]. split; [by exists h|].
    intros x (h' & -> & Hh')%list_elem_of_fmap. by apply Hub.
  - intros [(h & -> & Hh) Hub]. split; [by exists h|].
    intros h' Hh'. apply Hub, list_elem_of_fmap. by exists h'.
Qed.

Lemma first_unrecognised (hs : list PyHypothesis) :
  Forall (λ h, recognised (type h) = true) hs ∨
  ∃ pre u post, hs = pre ++ u :: post ∧ recognised (type u) = false ∧
                Forall (λ h, recognised (type h) = true) pre.
Proof.
  induction hs as [|h hs IH]; [by left|].
  destruct (recognised (type h)) eqn:Hh.
  - destruct IH as [IH|(pre & u & post & -> & Hu & Hpre)].
    + left. by constructor.
    + right. exists (h :: pre), u, post. split_and!; [done|done|by constructor].
  - right. by exists [], h, hs.
Qed.

(** C10, as the code has it.  [N] is the largest subject id, whatever the
    references.  When every id is at least 1 and every reference lies in
    [1..N], every row index assigned lies in [0, 2N) and the build does not
    fail on an index.  A link or division with a target beyond [N], or a
    merge with a parent beyond [2N], makes the build fail before the solver
    is called; a parent of a merge in [N+1..2N] is within the rows. *)
Theorem C10_row_indices (hypotheses : list PyHypothesis) (N : Z) :
  max_id hypotheses N →
  (∀ s, build hypotheses = Ok s → built_N s = N) ∧
  (∀ hypotheses', ID <$> hypotheses' = ID <$> hypotheses →
                  max_id hypotheses' N) ∧
  ((∀ h, h ∈ hypotheses →
         1 ≤ ID h ∧ Forall (λ r, 1 ≤ r ≤ N) (references h)) →
   (∀ h, h ∈ hypotheses → Forall (λ i, 0 ≤ i < 2 * N) (targets N h)) ∧
   ((∃ s, build hypotheses = Ok s) ∨
    build hypotheses = Raise (ValueError "Unknown hypothesis"))) ∧
  (Exists (beyond_rows N) hypotheses →
   ∃ e, build hypotheses = Raise e ∧
        ∀ ilp : solver, optimise ilp hypotheses = ([log_setup], Raise e)) ∧
  (∀ h p, type h = MERGE →
          p ∈ [parent_one_ID h; parent_two_ID h] → N < p ≤ 2 * N →
          OUT_RNG (trk_idx p) (2 * N) = false ∧ N ≤ trk_idx p).
Proof.
  intros Hmax.
  assert (py_max (elements (id_set hypotheses)) = Ok N) as HN
    by (by apply (py_max_max_id _ _ _ (build_iterates hypotheses))).
  split_and!.
  - intros s Hb. eapply max_id_unique; [by apply build_max_id | done].
  - intros hs' Hids. apply max_id_ids. rewrite Hids. by apply max_id_ids.
  - intros Hpre.
    assert (∀ h, h ∈ hypotheses → Forall (λ i, 0 ≤ i < 2 * N) (targets N h))
      as Hrng.
    { intros h Hh. destruct (Hpre h Hh) as [Hid Hrefs].
      apply targets_in_range; [|done]. split; [done|].
      destruct Hmax as [_ Hub]. by apply Hub. }
    split; [done|].
    assert (0 ≤ N) as HN0.
    { destruct Hmax as [(h & Hh & <-) _]. destruct (Hpre h Hh). lia. }
    assert (∀ h, h ∈ hypotheses → recognised (type h) = true →
                 encodable N (2 * N) h) as Henc.
    { intros h Hh Hrec. split; [done|].
      eapply Forall_impl; [by apply Hrng|].
      intros i Hi. simpl in Hi. apply OUT_RNG_false. lia. }
    destruct (first_unrecognised hypotheses)
      as [Hall|(pre & u & post & Heq & Hu & Hall)].
    + left. apply (build_with_total _ _ N); [done|done|].
      rewrite Forall_forall in Hall. apply Forall_forall.
      intros h Hh. apply Henc; [done | by apply Hall].
    + right. unfold build, build_with. rewrite HN. cbn [bind].
      destruct (spmatrix_new (2 * N, Z.of_nat (length hypotheses)))
        as [A|e] eqn:HA.
      * apply spmatrix_new_Ok in HA as (_ & _ & ->). cbn [bind].
        rewrite Heq at 1. rewrite build_loop_unknown; cbn [nrows ncols];
          rewrite <- ?Heq, ?matrix_length; try done; try lia.
        rewrite Forall_forall in Hall. apply Forall_forall.
        intros h Hh. apply Henc; [|by apply Hall].
        rewrite Heq. apply elem_of_app. by left.
      * assert (raised (spmatrix_new (2 * N, Z.of_nat (length hypotheses))))
          as Hr by (by eexists).
        apply spmatrix_new_raised in Hr. lia.
  - intros Hex. apply build_raised_optimise, build_with_raised.
    intros N' HN'. assert (N' = N) as -> by congruence.
    eapply Exists_impl; [exact Hex|]. intros h. apply beyond_rows_not_encodable.
  - intros h p _ _ Hp. unfold trk_idx. split; [apply OUT_RNG_false|]; lia.
Qed.

(** The claim as stated fails for a merge: the parent reference 2 exceeds
    the largest subject id 1, yet its row index 1 is a row of the 2-row
    matrix; the build goes through and the solver is called. *)
Lemma C10_counterexample :
  max_id merge_beyond_max 1 ∧
  merge_beyond_max !! 0%nat = Some (hypothesis 1 MERGE 0 2 1) ∧
  1 < parent_one_ID (hypothesis 1 MERGE 0 2 1) ∧
  (∃ s, build merge_beyond_max = Ok s ∧ nrows (built_A s) = 2) ∧
  optimise ilp_exhaustive merge_beyond_max =
    ([log_setup; log_optimising; log_complete "optimal"], Ok [0%nat]).
Proof.
  split_and!.
  - apply (py_max_max_id _ _ _ (build_iterates _)). vm_compute. reflexivity.
  - reflexivity.
  - reflexivity.
  - eexists. split; vm_compute; reflexivity.
  - vm_compute. reflexivity.
Qed.

Lemma C10_row_indices_witness :
  (max_id seven_types 3 ∧
   (∀ h, h ∈ seven_types →
         1 ≤ ID h ∧ Forall (λ r, 1 ≤ r ≤ 3) (references h)) ∧
   (∀ h, h ∈ seven_types → Forall (λ i, 0 ≤ i < 2 * 3) (targets 3 h)) ∧
   ((∃ s, build seven_types = Ok s) ∨
    build seven_types = Raise (ValueError "Unknown hypothesis"))) ∧
  (max_id link_beyond_max 1 ∧
   Exists (beyond_rows 1) link_beyond_max ∧
   ∃ e, build link_beyond_max = Raise e ∧
        ∀ ilp : solver, optimise ilp link_beyond_max = ([log_setup], Raise e)).
Proof.
  assert (max_id seven_types 3) as H3.
  { apply (py_max_max_id _ _ _ (build_iterates _)). vm_compute. reflexivity. }
  assert (max_id link_beyond_max 1) as H1.
  { apply (py_max_max_id _ _ _ (build_iterates _)). vm_compute. reflexivity. }
  assert (∀ h, h ∈ seven_types →
               1 ≤ ID h ∧ Forall (λ r, 1 ≤ r ≤ 3) (references h)) as Hpre.
  { apply Forall_forall. unfold seven_types, references. forall_bounds. }
  assert (Exists (beyond_rows 1) link_beyond_max) as Hex.
  { apply Exists_cons. right. apply Exists_cons. left.
    unfold beyond_rows. simpl. lia. }
  destruct (C10_row_indices seven_types 3 H3) as (_ & _ & Hin & _).
  destruct (C10_row_indices link_beyond_max 1 H1) as (_ & _ & _ & Hout & _).
  split.
  - split; [exact H3|]. split; [exact Hpre|]. exact (Hin Hpre).
  - split; [exact H1|]. split; [exact Hex|]. exact (Hout Hex).
Defined.

(** ** The reference solver is sound and complete *)

Lemma binary_vectors_spec (n : nat) (x : list Q) :
  x ∈ binary_vectors n ↔
  length x = n ∧ Forall (λ v, v = 0%Q ∨ v = 1%Q) x.
Proof.
  revert x. induction n as [|n IH]; intros x; simpl.
  - rewrite list_elem_of_singleton. split.
    + intros ->. by split.
    + intros [Hlen _]. by destruct x.
  - rewrite elem_of_app, !list_elem_of_fmap. split.
    + intros [(x' & -> & Hx')|(x' & -> & Hx')]; apply IH in Hx' as [<- Hall];
        (split; [done|]); constructor; auto.
    + intros [Hlen Hall]. destruct x as [|v x]; [done|].
      apply Forall_cons in Hall as [Hv Hall]. injection Hlen as Hlen.
      assert (x ∈ binary_vectors n) as Hx by (by apply IH).
      destruct Hv as [->| ->]; [left|right]; by exists x.
Qed.

Lemma row_dot_from_proper (M : spmatrix) (i : Z) (j : nat) (x y : list Q) :
  Forall2 Qeq x y → (row_dot_from M i j x == row_dot_from M i j y)%Q.
Proof.
  intros H. revert j. induction H as [|v w x y Hvw _ IH]; intros j; simpl.
  - reflexivity.
  - by rewrite Hvw, IH.
Qed.

Lemma dot_proper (c x y : list Q) :
  Forall2 Qeq x y → (dot c x == dot c y)%Q.
Proof.
  intros H. revert c. induction H as [|v w x y Hvw _ IH]; intros c.
  - reflexivity.
  - destruct c as [|a c]; simpl; [reflexivity|]. by rewrite Hvw, IH.
Qed.

Lemma feasible_proper (P : ilp_args) (x y : list Q) :
  Forall2 Qeq x y → feasible P x → feasible P y.
Proof.
  intros Hxy [Hlen Hle Heq Hint Hbin]. split.
  - by rewrite <- (Forall2_length _ _ _ Hxy).
  - intros i Hi. unfold row_dot.
    rewrite <- (row_dot_from_proper _ _ _ _ _ Hxy). by apply Hle.
  - intros i Hi. unfold row_dot.
    rewrite <- (row_dot_from_proper _ _ _ _ _ Hxy). by apply Heq.
  - intros j w Hj Hw.
    destruct (Forall2_lookup_r _ _ _ _ _ Hxy Hw) as (v & Hv & Hvw).
    destruct (Hint j v Hj Hv) as [z Hz]. exists z. by rewrite <- Hvw.
  - intros j w Hj Hw.
    destruct (Forall2_lookup_r _ _ _ _ _ Hxy Hw) as (v & Hv & Hvw).
    destruct (Hbin j v Hj Hv) as [Hz|Hz]; [left|right]; by rewrite <- Hvw.
Qed.

(** A binary point is, entry by entry, equal to one of the vectors
    enumerated. *)
Lemma binary_round (y : list Q) :
  Forall is_binary y →
  ∃ x, x ∈ binary_vectors (length y) ∧ Forall2 Qeq y x.
Proof.
  induction 1 as [|v y Hv _ (x & Hx & Hyx)]; simpl.
  - exists []. split; [by apply list_elem_of_singleton | constructor].
  - destruct Hv as [Hv|Hv].
    + exists (0%Q :: x). split; [|by constructor].
      apply elem_of_app. left. apply list_elem_of_fmap. by exists x.
    + exists (1%Q :: x). split; [|by constructor].
      apply elem_of_app. right. apply list_elem_of_fmap. by exists x.
Qed.

Lemma rows_eqb_true (M : spmatrix) (b x : list Q) :
  rows_eqb M b x = true ↔
  ∀ i, (i < Z.to_nat (nrows M))%nat →
       (row_dot M (Z.of_nat i) x == nth i b 0)%Q.
Proof.
  unfold rows_eqb. rewrite forallb_forall. split.
  - intros H i Hi. apply Qeq_bool_iff, H, in_seq. lia.
  - intros H i Hi. apply Qeq_bool_iff, H. apply in_seq in Hi. lia.
Qed.

Lemma rows_leb_true (M : spmatrix) (h x : list Q) :
  rows_leb M h x = true ↔
  ∀ i, (i < Z.to_nat (nrows M))%nat →
       (row_dot M (Z.of_nat i) x <= nth i h 0)%Q.
Proof.
  unfold rows_leb. rewrite forallb_forall. split.
  - intros H i Hi. apply Qle_bool_iff, H, in_seq. lia.
  - intros H i Hi. apply Qle_bool_iff, H. apply in_seq in Hi. lia.
Qed.

Lemma feasibleb_feasible (P : ilp_args) (x : list Q) :
  ilp_I P = ∅ →
  x ∈ binary_vectors (Z.to_nat (ncols (ilp_A P))) →
  feasibleb P x = true ↔ feasible P x.
Proof.
  intros HI [Hlen Hall]%binary_vectors_spec. unfold feasibleb.
  rewrite andb_true_iff, rows_leb_true, rows_eqb_true. split.
  - intros [Hle Heq]. split; try done.
    + intros j v Hj. rewrite HI in Hj. by apply not_elem_of_empty in Hj.
    + intros j v _ Hv. destruct (Forall_lookup_1 _ _ _ _ Hall Hv) as [->| ->];
        [left|right]; reflexivity.
  - intros [_ Hle Heq _ _]. by split.
Qed.

Lemma argmin_spec (c best : list Q) (cands : list (list Q)) :
  (argmin c best cands = best ∨ argmin c best cands ∈ cands) ∧
  (dot c (argmin c best cands) <= dot c best)%Q ∧
  ∀ z, z ∈ cands → (dot c (argmin c best cands) <= dot c z)%Q.
Proof.
  revert best. induction cands as [|x cands IH]; intros best; simpl.
  - split_and!; [by left|apply Qle_refl|]. intros z Hz. by apply elem_of_nil in Hz.
  - destruct (Qle_bool (dot c best) (dot c x)) eqn:Hle.
    + apply Qle_bool_iff in Hle.
      destruct (IH best) as (Hin & Hbest & Hall). split_and!.
      * destruct Hin as [Hin|Hin]; [by left|right; by apply elem_of_cons; right].
      * done.
      * intros z [->|Hz]%elem_of_cons; [by eapply Qle_trans | by apply Hall].
    + assert (dot c x <= dot c best)%Q as Hle'.
      { apply Qlt_le_weak, Qnot_le_lt. intros H. apply Qle_bool_iff in H.
        congruence. }
      destruct (IH x) as (Hin & Hbest & Hall). split_and!.
      * right. apply elem_of_cons. destruct Hin as [Hin|Hin]; [by left|by right].
      * by eapply Qle_trans.
      * intros z [->|Hz]%elem_of_cons; [done | by apply Hall].
Qed.

Lemma ilp_exhaustive_sound : sound ilp_exhaustive.
Proof.
  intros P ox H. unfold ilp_exhaustive in H.
  case_bool_decide as Hshape; [|done]. destruct Hshape as (HI & HB & Hc).
  destruct (List.filter _ _) as [|x0 cands] eqn:Hf; [done|].
  injection H as <-. eexists. split; [done|].
  set (n := Z.to_nat (ncols (ilp_A P))) in *.
  assert (∀ z, z ∈ x0 :: cands ↔ z ∈ binary_vectors n ∧ feasibleb P z = true)
    as Hcands.
  { intros z. rewrite <- Hf, !list_elem_of_In. apply filter_In. }
  destruct (argmin_spec (ilp_c P) x0 cands) as (Hin & Hbest & Hall).
  assert (argmin (ilp_c P) x0 cands ∈ x0 :: cands) as Hmem.
  { apply elem_of_cons. destruct Hin; [by left | by right]. }
  apply Hcands in Hmem as [Hbv Hfeas]. split.
  - by apply feasibleb_feasible.
  - intros y Hy.
    assert (Forall is_binary y) as Hbin.
    { apply Forall_lookup. intros j v Hj. apply (feasible_bin _ _ Hy j); [|done].
      rewrite HB. apply elem_of_range_set. apply lookup_lt_Some in Hj.
      by rewrite (feasible_length _ _ Hy) in Hj. }
    destruct (binary_round y Hbin) as (x' & Hx' & Hyx).
    rewrite (feasible_length _ _ Hy) in Hx'.
    assert (x' ∈ x0 :: cands) as Hmem'.
    { apply Hcands. split; [done|]. apply feasibleb_feasible; [done|done|].
      by apply (feasible_proper _ y). }
    rewrite (dot_proper _ _ _ Hyx).
    apply elem_of_cons in Hmem' as [->|Hmem']; [done | by apply Hall].
Qed.

Lemma ilp_exhaustive_complete : complete ilp_exhaustive.
Proof.
  intros P y HI HB Hc Hy. unfold ilp_exhaustive.
  rewrite bool_decide_true by done.
  assert (Forall is_binary y) as Hbin.
  { apply Forall_lookup. intros j v Hj. apply (feasible_bin _ _ Hy j); [|done].
    rewrite HB. apply elem_of_range_set. apply lookup_lt_Some in Hj.
    by rewrite (feasible_length _ _ Hy) in Hj. }
  destruct (binary_round y Hbin) as (x' & Hx' & Hyx).
  rewrite (feasible_length _ _ Hy) in Hx'.
  assert (In x' (List.filter (feasibleb P)
                   (binary_vectors (Z.to_nat (ncols (ilp_A P)))))) as Hmem.
  { apply filter_In. split; [by apply list_elem_of_In|].
    apply feasibleb_feasible; [done|done|]. by apply (feasible_proper _ y). }
  destruct (List.filter _ _) as [|x0 cands]; [done|]. eauto.
Qed.

(** ** Slots that no hypothesis covers *)

Lemma uncovered_row_zero hypotheses s r :
  build hypotheses = Ok s →
  ¬ covers (built_N s) hypotheses r →
  ∀ j, sp_get (built_A s) r j = 0%Q.
Proof.
  intros Hb Hun j.
  apply build_with_Ok in Hb as (_ & _ & _ & _ & _ & _ & Hout & Hin).
  unfold sp_get.
  destruct (decide (j < 0 ∨ Z.of_nat (length hypotheses) ≤ j)) as [Hj|Hj].
  - by rewrite Hout.
  - destruct (lookup_lt_is_Some_2 hypotheses (Z.to_nat j)) as [h Hh]; [lia|].
    replace j with (Z.of_nat (Z.to_nat j)) by lia.
    rewrite (Hin r _ h Hh). rewrite decide_False; [done|].
    intros Hr. apply Hun. apply Exists_exists. exists h. split; [|done].
    by eapply list_elem_of_lookup_2.
Qed.

Lemma uncovered_row_infeasible hypotheses s P r x :
  build hypotheses = Ok s →
  formulate (length hypotheses) s = Ok P →
  0 ≤ r < 2 * built_N s →
  ¬ covers (built_N s) hypotheses r →
  ¬ feasible P x.
Proof.
  intros Hb HP Hr Hun Hx.
  apply (build_feasible _ _ _ x Hb HP) in Hx as (_ & _ & Hrows).
  specialize (Hrows (Z.to_nat r) ltac:(lia)).
  rewrite Z2Nat.id in Hrows by lia. unfold row_dot in Hrows.
  rewrite row_dot_from_zero in Hrows; [|by eapply uncovered_row_zero].
  discriminate Hrows.
Qed.

Lemma uncovered_row_selection (ilp : solver) hypotheses s r :
  sound ilp →
  build hypotheses = Ok s →
  0 ≤ r < 2 * built_N s →
  ¬ covers (built_N s) hypotheses r →
  ∃ status, status ≠ "optimal"%string ∧
    optimise ilp hypotheses =
      ([log_setup; log_optimising; log_not_optimal status], Ok []).
Proof.
  intros Hsound Hb Hr Hun.
  destruct (build_formulate _ _ Hb) as (P & HP & _).
  destruct (ilp P) as [status ox] eqn:Hilp. exists status.
  assert (status ≠ "optimal"%string) as Hne.
  { intros ->. destruct (Hsound P ox Hilp) as (x & _ & Hx & _).
    by eapply uncovered_row_infeasible. }
  split; [done|]. unfold optimise.
  rewrite (optimise_built _ _ _ _ _ Hb HP), Hilp.
  by apply conclude_not_optimal.
Qed.

(** An id of [1..N] that no hypothesis has as its subject or refers to
    leaves both slots of the tracklet uncovered, when ids are positive and
    references stay within [1..N]. *)
Lemma gap_uncovered hypotheses N t :
  1 ≤ t ≤ N →
  (∀ h, h ∈ hypotheses →
        1 ≤ ID h ≤ N ∧ Forall (λ r, 1 ≤ r ≤ N) (references h) ∧
        t ∉ ID h :: references h) →
  ¬ covers N hypotheses (tail (t - 1)) ∧
  ¬ covers N hypotheses (head N (t - 1)).
Proof.
  intros Ht Hall.
  assert (∀ h r, h ∈ hypotheses → r ∈ phys_rows N (2 * N) h →
                 r ≠ t - 1 ∧ r ≠ N + (t - 1)) as Hrows.
  { intros h r Hh Hr. destruct (Hall h Hh) as (Hid & Hrefs & Hgap).
    rewrite phys_rows_nonneg in Hr.
    2:{ eapply Forall_impl; [by apply targets_in_range|]. simpl. lia. }
    apply not_elem_of_cons in Hgap as [Hne Hgap].
    unfold targets, references, trk_idx in *.
    destruct (type h);
      repeat (apply Forall_cons in Hrefs as [? Hrefs]);
      repeat (apply not_elem_of_cons in Hgap as [? Hgap]);
      repeat (apply elem_of_cons in Hr as [->|Hr]);
      try (by apply elem_of_nil in Hr); lia. }
  unfold covers, tail, head.
  split; intros (h & Hh & Hr)%Exists_exists;
    destruct (Hrows h _ Hh Hr); done.
Qed.

(** C9.  When the build goes through and the tail slot or the head slot of
    a tracklet [t] of [1..N] is written by no hypothesis, the row of that
    slot is zero in every column while its right-hand side is one, no point
    is feasible, and with a sound solver [optimise] logs a warning and
    returns the empty list. *)
Theorem C9_uncovered_slot (ilp : solver) (hypotheses : list PyHypothesis)
    (s : built) (t : Z) :
  sound ilp →
  build hypotheses = Ok s →
  1 ≤ t ≤ built_N s →
  ¬ covers (built_N s) hypotheses (tail (t - 1)) ∨
  ¬ covers (built_N s) hypotheses (head (built_N s) (t - 1)) →
  ∃ r, (r = tail (t - 1) ∨ r = head (built_N s) (t - 1)) ∧
    0 ≤ r < 2 * built_N s ∧
    (∀ j, sp_get (built_A s) r j = 0%Q) ∧
    (∃ P, formulate (length hypotheses) s = Ok P ∧
          ilp_A P = built_A s ∧
          nth (Z.to_nat r) (ilp_b P) 0%Q = 1%Q ∧
          ∀ x, ¬ feasible P x) ∧
    ∃ status, status ≠ "optimal"%string ∧
      optimise ilp hypotheses =
        ([log_setup; log_optimising; log_not_optimal status], Ok []).
Proof.
  intros Hsound Hb Ht Hun.
  assert (∃ r, (r = tail (t - 1) ∨ r = head (built_N s) (t - 1)) ∧
               0 ≤ r < 2 * built_N s ∧ ¬ covers (built_N s) hypotheses r)
    as (r & Hr & Hrng & Hunr).
  { unfold tail, head in *. destruct Hun as [Hun|Hun].
    - exists (t - 1). split_and!; [by left|lia|lia|done].
    - exists (built_N s + (t - 1)). split_and!; [by right|lia|lia|done]. }
  exists r. split; [done|]. split; [done|]. split; [|split].
  - by eapply uncovered_row_zero.
  - destruct (build_formulate _ _ Hb) as (P & HP & _ & _ & _ & HA & Hbv & _).
    exists P. split; [done|]. split; [done|]. split.
    + rewrite Hbv. apply nth_replicate_lt. lia.
    + intros x. by eapply uncovered_row_infeasible.
  - by eapply uncovered_row_selection.
Qed.

Lemma C9_uncovered_slot_witness :
  sound ilp_exhaustive ∧
  ∃ s, build sparse_ids = Ok s ∧
    1 ≤ 1 ≤ built_N s ∧
    (¬ covers (built_N s) sparse_ids (tail (1 - 1)) ∨
     ¬ covers (built_N s) sparse_ids (head (built_N s) (1 - 1))) ∧
    ∃ r, (r = tail (1 - 1) ∨ r = head (built_N s) (1 - 1)) ∧
      0 ≤ r < 2 * built_N s ∧
      (∀ j, sp_get (built_A s) r j = 0%Q) ∧
      (∃ P, formulate (length sparse_ids) s = Ok P ∧
            ilp_A P = built_A s ∧
            nth (Z.to_nat r) (ilp_b P) 0%Q = 1%Q ∧
            ∀ x, ¬ feasible P x) ∧
      ∃ status, status ≠ "optimal"%string ∧
        optimise ilp_exhaustive sparse_ids =
          ([log_setup; log_optimising; log_not_optimal status], Ok []).
Proof.
  split; [exact ilp_exhaustive_sound|].
  eexists. split; [vm_compute; reflexivity|].
  assert (¬ covers 3 sparse_ids (tail (1 - 1))) as Hun.
  { unfold covers. eapply bool_decide_eq_false_1. vm_compute. reflexivity. }
  split; [simpl; lia|]. split; [left; exact Hun|].
  apply (C9_uncovered_slot ilp_exhaustive sparse_ids _ 1 ilp_exhaustive_sound);
    [vm_compute; reflexivity | simpl; lia | left; exact Hun].
Defined.

(** ** Scenario B *)

Lemma Qgtb_of_zero (v : Q) : (v == 0)%Q → Qgtb v 0 = false.
Proof.
  intros Hv. destruct (Qgtb v 0) eqn:H; [|done].
  apply Qgtb_true in H. rewrite Hv in H. by apply Qlt_irrefl in H.
Qed.

Lemma Qgtb_of_one (v : Q) : (v == 1)%Q → Qgtb v 0 = true.
Proof. intros Hv. apply Qgtb_true. by rewrite Hv. Qed.

(** The optimal points of the covered scenario select the link. *)
Lemma scenario_B_covered_optimum (ll_init ll_term : Q) s P x :
  build (scenario_B_covered ll_init ll_term) = Ok s →
  formulate 5 s = Ok P →
  feasible P x →
  (∀ y, feasible P y → (dot (ilp_c P) x <= dot (ilp_c P) y)%Q) →
  ∃ x0 x1 x2 x3 x4, x = [x0; x1; x2; x3; x4] ∧
    (x0 == 0)%Q ∧ (x1 == 0)%Q ∧ (x2 == 1)%Q ∧ (x3 == 1)%Q ∧ (x4 == 1)%Q.
Proof.
  intros Hb HP Hx Hopt.
  pose proof (build_feasible _ _ P [0; 0; 1; 1; 1]%Q Hb HP) as Hy.
  pose proof (build_feasible _ _ P x Hb HP) as Hx'.
  destruct (build_formulate _ _ Hb) as (P' & HP' & Hc & _).
  assert (P' = P) as -> by (cbn in HP'; congruence).
  assert (s = match build (scenario_B_covered ll_init ll_term) with
              | Ok s' => s' | Raise _ => s end) as Hs by (by rewrite Hb).
  vm_compute in Hs. subst s. cbn [built_N built_A] in *.
  assert (feasible P [0; 0; 1; 1; 1]%Q) as Hy0.
  { apply Hy. split_and!; [done| |].
    - repeat first [ apply Forall_nil_2 | apply Forall_cons; split ];
        unfold is_binary; first [left; reflexivity | right; reflexivity].
    - intros i Hi.
      destruct i as [|[|[|[|i]]]]; [vm_compute; reflexivity ..|].
      vm_compute in Hi. lia. }
  apply Hx' in Hx as (Hlen & Hbin & Hrows).
  destruct x as [|x0 [|x1 [|x2 [|x3 [|x4 [|]]]]]]; try discriminate Hlen.
  exists x0, x1, x2, x3, x4. split; [done|].
  specialize (Hopt _ Hy0). rewrite Hc in Hopt.
  cbn [scenario_B_covered scenario_B app fmap list_fmap hypothesis
       log_likelihood dot] in Hopt.
  pose proof (Hrows 0%nat ltac:(vm_compute; lia)) as R0.
  pose proof (Hrows 1%nat ltac:(vm_compute; lia)) as R1.
  pose proof (Hrows 2%nat ltac:(vm_compute; lia)) as R2.
  pose proof (Hrows 3%nat ltac:(vm_compute; lia)) as R3.
  cbn [row_dot row_dot_from Z.of_nat Pos.of_succ_nat Pos.succ] in R0, R1, R2, R3.
  read_cells R0. read_cells R1. read_cells R2. read_cells R3.
  assert (x3 == 1)%Q as E3 by lra.
  assert (x4 == 1)%Q as E4 by lra.
  rewrite E3, E4 in Hopt.
  apply Forall_cons in Hbin as [B0 Hbin].
  apply Forall_cons in Hbin as [B1 Hbin].
  apply Forall_cons in Hbin as [B2 _].
  unfold is_binary in *.
  destruct B0, B1, B2; split_and!; lra.
Qed.

Lemma scenario_B_uncovered : ¬ covers 2 scenario_B 1.
Proof. unfold covers. eapply bool_decide_eq_false_1. vm_compute. reflexivity. Qed.

Lemma scenario_B_empty (ilp : solver) :
  sound ilp → (optimise ilp scenario_B).2 = Ok [].
Proof.
  intros Hsound.
  destruct (uncovered_row_selection ilp scenario_B
              match build scenario_B with
              | Ok s => s
              | Raise _ => {| built_N := 0;
                              built_A := {| nrows := 0; ncols := 0; entries := ∅ |};
                              built_rho := [] |}
              end 1 Hsound) as (status & _ & ->);
    [vm_compute; reflexivity | vm_compute; split; [discriminate | reflexivity]
     | exact scenario_B_uncovered | done].
Qed.

(** The claim as stated fails: in the pool of scenario B nothing explains
    the head of tracklet 1 or the tail of tracklet 2, so no selection
    satisfies the constraints and [optimise] returns the empty list, not
    the index of the link. *)
Lemma C7_counterexample :
  sound ilp_exhaustive ∧
  optimise ilp_exhaustive scenario_B =
    ([log_setup; log_optimising;
      log_not_optimal "LP relaxation is primal infeasible"], Ok []) ∧
  (∀ ilp : solver, sound ilp → (optimise ilp scenario_B).2 = Ok []) ∧
  (∀ ilp : solver, sound ilp → (optimise ilp scenario_B).2 ≠ Ok [2%nat]).
Proof.
  split_and!.
  - exact ilp_exhaustive_sound.
  - vm_compute. reflexivity.
  - exact scenario_B_empty.
  - intros ilp Hsound. by rewrite scenario_B_empty.
Qed.

(** C7, as the code has it.  On the pool of scenario B as given a sound
    solver finds nothing and [optimise] returns the empty list.  Once the
    head of tracklet 1 and the tail of tracklet 2 are explained as well, by
    an INITIALIZE of tracklet 1 and a TERMINATE of tracklet 2 of any
    log-likelihood, [optimise] with a sound and complete solver selects the
    link (index 2) with these two (indices 3 and 4) and neither the
    TERMINATE of tracklet 1 nor the INITIALIZE of tracklet 2. *)
Theorem C7_link_preferred (ilp : solver) (ll_init ll_term : Q) :
  sound ilp →
  complete ilp →
  (optimise ilp scenario_B).2 = Ok [] ∧
  optimise ilp (scenario_B_covered ll_init ll_term) =
    ([log_setup; log_optimising; log_complete "optimal"],
     Ok [2%nat; 3%nat; 4%nat]).
Proof.
  intros Hsound Hcomplete. split; [by apply scenario_B_empty|].
  destruct (build (scenario_B_covered ll_init ll_term)) as [s|e] eqn:Hb;
    [|by vm_compute in Hb].
  destruct (build_formulate _ _ Hb) as (P & HP & Hc & _ & _ & HA & _ & HI & HB).
  pose proof Hb as Hshape.
  apply build_with_Ok in Hshape as (_ & _ & _ & Hcols & Hrho & _).
  assert (∃ y, feasible P y) as [y Hy].
  { exists [0; 0; 1; 1; 1]%Q.
    apply (build_feasible _ _ _ _ Hb HP).
    assert (s = match build (scenario_B_covered ll_init ll_term) with
                | Ok s' => s' | Raise _ => s end) as Hs by (by rewrite Hb).
    vm_compute in Hs. subst s. cbn [built_N built_A]. split_and!; [done| |].
    - repeat first [ apply Forall_nil_2 | apply Forall_cons; split ];
        unfold is_binary; first [left; reflexivity | right; reflexivity].
    - intros i Hi.
      destruct i as [|[|[|[|i]]]]; [vm_compute; reflexivity ..|].
      vm_compute in Hi. lia. }
  destruct (Hcomplete P y) as [x Hilp]; try done.
  { by rewrite HA, Hcols, Nat2Z.id. }
  { by rewrite Hc, HA, Hcols, Nat2Z.id, length_fmap. }
  destruct (Hsound P _ Hilp) as (x' & [= <-] & Hx & Hopt).
  destruct (scenario_B_covered_optimum ll_init ll_term s P x Hb HP Hx Hopt)
    as (x0 & x1 & x2 & x3 & x4 & -> & H0 & H1 & H2 & H3 & H4).
  unfold optimise. rewrite (optimise_built _ _ _ _ _ Hb HP), Hilp.
  rewrite conclude_optimal by (simpl; lia).
  cbn [scenario_B_covered scenario_B app length seq List.filter nth].
  by rewrite (Qgtb_of_zero _ H0), (Qgtb_of_zero _ H1), (Qgtb_of_one _ H2),
    (Qgtb_of_one _ H3), (Qgtb_of_one _ H4).
Qed.

Lemma C7_link_preferred_witness :
  sound ilp_exhaustive ∧
  complete ilp_exhaustive ∧
  (optimise ilp_exhaustive scenario_B).2 = Ok [] ∧
  optimise ilp_exhaustive (scenario_B_covered (-2) (-2)) =
    ([log_setup; log_optimising; log_complete "optimal"],
     Ok [2%nat; 3%nat; 4%nat]).
Proof.
  split; [exact ilp_exhaustive_sound|].
  split; [exact ilp_exhaustive_complete|].
  exact (C7_link_preferred ilp_exhaustive (-2) (-2)
           ilp_exhaustive_sound ilp_exhaustive_complete).
Defined.

(** * Further properties of the code *)

(** ** When the build goes through *)

Lemma encodable_rows_positive N nr h : encodable N nr h → 0 < nr.
Proof.
  intros [Hrec Hrng]. pose proof (targets_nonempty N h Hrec) as Hne.
  destruct (targets N h) as [|i rows]; [done|].
  apply Forall_cons in Hrng as [Hi%OUT_RNG_false _]. lia.
Qed.

Lemma build_nonempty hypotheses s : build hypotheses = Ok s → hypotheses ≠ [].
Proof.
  intros Hb ->. apply build_max_id in Hb as [(h & Hh & _) _].
  by apply elem_of_nil in Hh.
Qed.

(** X1.  A pool that [optimise] accepts is not empty and has a positive
    largest id, so the matrix has at least two rows; the scores are those
    of the hypotheses in their order. *)
Theorem build_N_positive (hypotheses : list PyHypothesis) (s : built) :
  build hypotheses = Ok s →
  hypotheses ≠ [] ∧ 1 ≤ built_N s ∧ 2 ≤ nrows (built_A s) ∧
  built_rho s = log_likelihood <$> hypotheses.
Proof.
  intros Hb. pose proof (build_nonempty _ _ Hb) as Hne.
  apply build_with_Ok in Hb as (_ & _ & Hr & _ & Hrho & Hall & _).
  destruct hypotheses as [|h hs]; [done|].
  apply Forall_cons in Hall as [Hh%encodable_rows_positive _].
  split_and!; [done|lia|lia|done].
Qed.

Lemma build_N_positive_witness :
  ∃ s, build scenario_A = Ok s ∧
    (scenario_A ≠ [] ∧ 1 ≤ built_N s ∧ 2 ≤ nrows (built_A s) ∧
     built_rho s = log_likelihood <$> scenario_A).
Proof.
  eexists. split; [vm_compute; reflexivity|].
  apply (build_N_positive scenario_A). vm_compute. reflexivity.
Defined.

(** X2.  The build goes through exactly for the pools that have a largest
    id [N] and whose hypotheses all have a recognised type and row indices
    that cvxopt accepts for [2N] rows. *)
Theorem build_succeeds_iff (hypotheses : list PyHypothesis) :
  (∃ s, build hypotheses = Ok s) ↔
  ∃ N, max_id hypotheses N ∧ Forall (encodable N (2 * N)) hypotheses.
Proof.
  split.
  - intros [s Hb]. exists (built_N s). split; [by apply build_max_id|].
    by apply build_with_Ok in Hb as (_ & _ & _ & _ & _ & Hall & _).
  - intros (N & Hmax & Hall).
    apply (build_with_total _ _ N); [|
      | done].
    + by apply (py_max_max_id _ _ _ (build_iterates hypotheses)).
    + destruct Hmax as [(h & Hh & _) _]. rewrite Forall_forall in Hall.
      pose proof (encodable_rows_positive _ _ _ (Hall h Hh)). lia.
Qed.

(** ** How the build fails *)

Lemma set_rows_Raise A rows counter e :
  set_rows A rows counter = Raise e → e = IndexError "index out of range".
Proof.
  revert A. induction rows as [|i rows IH]; intros A; simpl; [done|].
  unfold sp_setitem.
  destruct (OUT_RNG i (nrows A) || OUT_RNG counter (ncols A)); simpl.
  - by intros [= <-].
  - apply IH.
Qed.

Lemma set_rows_not_in_range A rows counter :
  Exists (λ i, OUT_RNG i (nrows A) = true) rows →
  set_rows A rows counter = Raise (IndexError "index out of range").
Proof.
  intros Hex. destruct (set_rows A rows counter) as [A'|e] eqn:Hs.
  - apply set_rows_Ok in Hs as (_ & _ & Hall & _).
    apply Exists_exists in Hex as (i & Hi & Hout).
    rewrite Forall_forall in Hall. rewrite (Hall i Hi) in Hout. done.
  - by rewrite (set_rows_Raise _ _ _ _ Hs).
Qed.

Lemma not_encodable_cases N nr h :
  ¬ encodable N nr h →
  recognised (type h) = false ∨
  (recognised (type h) = true ∧
   Exists (λ i, OUT_RNG i nr = true) (targets N h)).
Proof.
  intros Hn. destruct (recognised (type h)) eqn:Hrec; [right|by left].
  split; [done|].
  destruct (decide (Forall (λ i, OUT_RNG i nr = false) (targets N h)))
    as [Hall|Hex].
  - destruct Hn. by split.
  - apply not_Forall_Exists in Hex; [|apply _].
    eapply Exists_impl; [exact Hex|]. simpl. intros i Hi.
    by destruct (OUT_RNG i nr).
Qed.

Lemma encode_not_encodable N c h A :
  ¬ encodable N (nrows A) h →
  encode N c h A =
  Raise (if recognised (type h) then IndexError "index out of range"
         else ValueError "Unknown hypothesis").
Proof.
  intros Hn. rewrite encode_set_rows.
  destruct (not_encodable_cases _ _ _ Hn) as [->|[-> Hex]]; [done|].
  by apply set_rows_not_in_range.
Qed.

Lemma build_loop_first_failure N c pre u post A rho :
  Forall (encodable N (nrows A)) pre →
  ¬ encodable N (nrows A) u →
  (c + length (pre ++ u :: post) ≤ length rho)%nat →
  Z.of_nat (c + length (pre ++ u :: post)) ≤ ncols A →
  build_loop N c (pre ++ u :: post) A rho =
  Raise (if recognised (type u) then IndexError "index out of range"
         else ValueError "Unknown hypothesis").
Proof.
  revert c A rho. induction pre as [|h pre IH]; intros c A rho Hall Hu Hlen Hcol;
    simpl in *.
  - unfold matrix_setitem. rewrite decide_True by lia. cbn [bind].
    by rewrite encode_not_encodable.
  - apply Forall_cons in Hall as [[Hrec Hrows] Hall].
    unfold matrix_setitem. rewrite decide_True by lia. cbn [bind].
    rewrite encode_set_rows, Hrec.
    destruct (set_rows_in_range A (targets N h) (Z.of_nat c)) as [A1 HA1];
      [done|apply OUT_RNG_false; lia|].
    rewrite HA1. cbn [bind].
    apply set_rows_Ok in HA1 as (Hr & Hc & _).
    apply IH; rewrite ?Hr, ?Hc, ?length_insert; [done|done|lia|lia].
Qed.

Lemma build_fails_first (pre post : list PyHypothesis) (u : PyHypothesis)
    (N : Z) :
  max_id (pre ++ u :: post) N →
  0 ≤ N →
  Forall (encodable N (2 * N)) pre →
  ¬ encodable N (2 * N) u →
  build (pre ++ u :: post) =
  Raise (if recognised (type u) then IndexError "index out of range"
         else ValueError "Unknown hypothesis").
Proof.
  intros Hmax HN Hpre Hu. unfold build, build_with.
  apply (py_max_max_id _ _ _ (build_iterates (pre ++ u :: post))) in Hmax.
  rewrite Hmax. cbn [bind].
  destruct (spmatrix_new (2 * N, Z.of_nat (length (pre ++ u :: post))))
    as [A|e] eqn:HA.
  - apply spmatrix_new_Ok in HA as (_ & _ & ->). cbn [bind].
    rewrite build_loop_first_failure; cbn [nrows ncols]; try done; try lia.
    rewrite matrix_length. lia.
  - assert (raised (spmatrix_new (2 * N, Z.of_nat (length (pre ++ u :: post)))))
      as Hr by (by eexists).
    apply spmatrix_new_raised in Hr. lia.
Qed.

(** X3.  The hypotheses are encoded in order and the first one that cannot
    be encoded decides the exception: the [IndexError] of the assignment
    when its type is recognised and one of its row indices is refused, the
    [ValueError] of the last branch when its type is not recognised.  The
    solver is not called and only the first record is logged. *)
Theorem build_first_failure (pre post : list PyHypothesis) (u : PyHypothesis)
    (N : Z) :
  max_id (pre ++ u :: post) N →
  0 ≤ N →
  Forall (encodable N (2 * N)) pre →
  ¬ encodable N (2 * N) u →
  ∀ ilp : solver,
    optimise ilp (pre ++ u :: post) =
    ([log_setup],
     Raise (if recognised (type u) then IndexError "index out of range"
            else ValueError "Unknown hypothesis")).
Proof.
  intros Hmax HN Hpre Hu ilp. apply optimise_build_raised.
  by apply (build_fails_first _ _ _ N).
Qed.

Lemma build_first_failure_witness :
  max_id ([hypothesis 1 INITIALIZE 0 0 0] ++
          hypothesis 1 DIVIDE 0 1 2 :: [hypothesis 1 (UNRECOGNISED 9) 0 0 0]) 1 ∧
  0 ≤ 1 ∧
  Forall (encodable 1 (2 * 1)) [hypothesis 1 INITIALIZE 0 0 0] ∧
  ¬ encodable 1 (2 * 1) (hypothesis 1 DIVIDE 0 1 2) ∧
  ∀ ilp : solver,
    optimise ilp ([hypothesis 1 INITIALIZE 0 0 0] ++
                  hypothesis 1 DIVIDE 0 1 2 ::
                  [hypothesis 1 (UNRECOGNISED 9) 0 0 0]) =
    ([log_setup], Raise (IndexError "index out of range")).
Proof.
  assert (max_id ([hypothesis 1 INITIALIZE 0 0 0] ++
                  hypothesis 1 DIVIDE 0 1 2 ::
                  [hypothesis 1 (UNRECOGNISED 9) 0 0 0]) 1) as Hmax.
  { apply (py_max_max_id _ _ _ (build_iterates _)). vm_compute. reflexivity. }
  assert (Forall (encodable 1 (2 * 1)) [hypothesis 1 INITIALIZE 0 0 0]) as Hpre.
  { repeat first [ apply Forall_nil_2 | apply Forall_cons; split | split ];
      reflexivity. }
  assert (¬ encodable 1 (2 * 1) (hypothesis 1 DIVIDE 0 1 2)) as Hu.
  { intros [_ Hrng]. apply Forall_cons in Hrng as [_ Hrng].
    apply Forall_cons in Hrng as [_ Hrng].
    apply Forall_cons in Hrng as [Hrng _]. discriminate Hrng. }
  split; [exact Hmax|]. split; [lia|]. split; [exact Hpre|]. split; [exact Hu|].
  exact (build_first_failure [hypothesis 1 INITIALIZE 0 0 0]
           [hypothesis 1 (UNRECOGNISED 9) 0 0 0] (hypothesis 1 DIVIDE 0 1 2) 1
           Hmax ltac:(lia) Hpre Hu).
Defined.

Lemma first_failing {T} (P : T → Prop) `{∀ x, Decision (P x)} (l : list T) :
  Forall P l ∨
  ∃ pre u post, l = pre ++ u :: post ∧ Forall P pre ∧ ¬ P u.
Proof.
  induction l as [|x l IH]; [by left|].
  destruct (decide (P x)) as [Hx|Hx].
  - destruct IH as [IH|(pre & u & post & -> & Hpre & Hu)].
    + left. by constructor.
    + right. exists (x :: pre), u, post. split_and!; [done|by constructor|done].
  - right. by exists [], x, l.
Qed.

Lemma build_Raise hypotheses e :
  build hypotheses = Raise e →
  (hypotheses = [] ∧ e = ValueError "max() arg is an empty sequence") ∨
  (∃ N, max_id hypotheses N ∧ N < 0 ∧
        e = TypeError "dimensions must be non-negative") ∨
  (∃ N pre u post, max_id hypotheses N ∧ 0 ≤ N ∧
        hypotheses = pre ++ u :: post ∧
        Forall (encodable N (2 * N)) pre ∧ ¬ encodable N (2 * N) u ∧
        e = if recognised (type u) then IndexError "index out of range"
            else ValueError "Unknown hypothesis").
Proof.
  intros Hb. destruct hypotheses as [|h0 hs] eqn:Hh.
  - left. split; [done|]. vm_compute in Hb. congruence.
  - right. rewrite <- Hh in *.
    destruct (max_id_exists _ _ (build_iterates hypotheses)) as [N HN];
      [by rewrite Hh|].
    pose proof HN as Hmax.
    apply (py_max_max_id _ _ _ (build_iterates hypotheses)) in Hmax.
    destruct (decide (N < 0)) as [Hneg|Hpos].
    + left. exists N. split_and!; [done|done|].
      unfold build, build_with in Hb. rewrite HN in Hb. cbn [bind] in Hb.
      unfold spmatrix_new in Hb.
      destruct (Z.ltb_spec (2 * N) 0); [|lia]. simpl in Hb. congruence.
    + right. exists N.
      destruct (first_failing (encodable N (2 * N)) hypotheses)
        as [Hall|(pre & u & post & Heq & Hpre & Hu)].
      * destruct (build_with_total _ _ N HN ltac:(lia) Hall) as [s Hs].
        unfold build in Hb. congruence.
      * exists pre, u, post. split_and!; try done; [lia|].
        pose proof (build_fails_first pre post u N) as Hf.
        rewrite <- Heq in Hf.
        specialize (Hf Hmax ltac:(lia) Hpre Hu). congruence.
Qed.

(** ** How reading the solution fails *)

Lemma select_from_None i hs e :
  select_from i hs None = Raise e →
  hs ≠ [] ∧ e = TypeError "'NoneType' object is not subscriptable".
Proof. destruct hs; simpl; [done|]. by intros [= <-]. Qed.

Lemma select_from_Raise i hs xs e :
  select_from i hs (Some xs) = Raise e →
  (length xs < i + length hs)%nat ∧ e = IndexError "index out of range".
Proof.
  intros H. split.
  - destruct (decide (i + length hs ≤ length xs)%nat) as [Hle|]; [|lia].
    by rewrite select_from_Ok in H.
  - revert i H. induction hs as [|h hs IH]; intros i; simpl; [done|].
    destruct (xs !! i) as [v|]; [|by intros [= <-]].
    destruct (select_from (S i) hs (Some xs)) as [r|e'] eqn:Hs; simpl; [done|].
    intros [= <-]. by eapply IH.
Qed.

Lemma conclude_Raise hypotheses status ox log log' e :
  conclude hypotheses (status, ox) log = (log', Raise e) →
  status = "optimal"%string ∧ log' = log ∧
  ((ox = None ∧ hypotheses ≠ [] ∧
    e = TypeError "'NoneType' object is not subscriptable") ∨
   (∃ x, ox = Some x ∧ (length x < length hypotheses)%nat ∧
         e = IndexError "index out of range")).
Proof.
  unfold conclude, select.
  destruct (String.eqb_spec status "optimal") as [->|Hne]; cbn [negb]; [|done].
  destruct (select_from 0 hypotheses ox) as [r|e'] eqn:Hs; [done|].
  intros [= <- <-]. split_and!; [done|done|].
  destruct ox as [x|].
  - right. exists x. apply select_from_Raise in Hs as [Hlen ->].
    split_and!; [done|lia|done].
  - left. by apply select_from_None in Hs as [Hne ->].
Qed.

(** X5.  Every exception that leaves [optimise], with what was logged
    before it.  From the build, after the first record only: the
    [ValueError] of [max] on the empty pool; the [TypeError] of the
    allocation when the largest id is negative; the [IndexError] or
    [ValueError] of the first hypothesis that cannot be encoded.  From the
    reading of the solution, after the second record: a [TypeError] when
    the solver says optimal with no solution, an [IndexError] when the
    solution is shorter than the pool. *)
Theorem optimise_raises (ilp : solver) (hypotheses : list PyHypothesis)
    (log : list log_record) (e : exn) :
  optimise ilp hypotheses = (log, Raise e) →
  (log = [log_setup] ∧ build hypotheses = Raise e ∧
   ((hypotheses = [] ∧ e = ValueError "max() arg is an empty sequence") ∨
    (∃ N, max_id hypotheses N ∧ N < 0 ∧
          e = TypeError "dimensions must be non-negative") ∨
    (∃ N pre u post, max_id hypotheses N ∧ 0 ≤ N ∧
          hypotheses = pre ++ u :: post ∧
          Forall (encodable N (2 * N)) pre ∧ ¬ encodable N (2 * N) u ∧
          e = if recognised (type u) then IndexError "index out of range"
              else ValueError "Unknown hypothesis"))) ∨
  (log = [log_setup; log_optimising] ∧
   ∃ s P ox, build hypotheses = Ok s ∧
     formulate (length hypotheses) s = Ok P ∧
     ilp P = ("optimal"%string, ox) ∧
     ((ox = None ∧ e = TypeError "'NoneType' object is not subscriptable") ∨
      (∃ x, ox = Some x ∧ (length x < length hypotheses)%nat ∧
            e = IndexError "index out of range"))).
Proof.
  intros H. destruct (build hypotheses) as [s|e'] eqn:Hb.
  - right. destruct (build_formulate _ _ Hb) as (P & HP & _).
    unfold optimise in H. rewrite (optimise_built _ _ _ _ _ Hb HP) in H.
    destruct (ilp P) as [status ox] eqn:Hilp.
    apply conclude_Raise in H as (-> & -> & Hcases).
    split; [done|]. exists s, P, ox. split_and!; try done.
    destruct Hcases as [(-> & _ & ->)|(x & -> & Hlen & ->)]; [by left|].
    right. by exists x.
  - left. unfold optimise in H. unfold build in Hb.
    rewrite (optimise_build_raised _ _ _ _ Hb) in H. injection H as <- <-.
    split_and!; [done|done|]. by apply build_Raise.
Qed.

(** ** The empty pool *)

(** X4.  [optimise] on an optimiser whose pool is empty, as it is after
    [__init__], logs its first record and raises the [ValueError] of [max]
    on an empty sequence, whatever the solver; no other pool ends in this
    exception.  The property returns what the setter stored. *)
Theorem optimise_empty_pool (ilp : solver) (self : TrackOptimiser.t) :
  (TrackOptimiser.optimise ilp self =
     ([log_setup], Raise (ValueError "max() arg is an empty sequence")) ↔
   TrackOptimiser.hypotheses self = []) ∧
  TrackOptimiser.optimise ilp TrackOptimiser.__init__ =
    ([log_setup], Raise (ValueError "max() arg is an empty sequence")) ∧
  ∀ hypotheses,
    TrackOptimiser.hypotheses (TrackOptimiser.set_hypotheses self hypotheses) =
    hypotheses.
Proof.
  split_and!; [|done|done].
  unfold TrackOptimiser.optimise. destruct self as [hs]. simpl. split.
  - intros H.
    assert (build hs = Raise (ValueError "max() arg is an empty sequence"))
      as Hb.
    { unfold optimise, optimise_with in H. unfold build.
      destruct (build_with _ hs) as [s|e]; [|congruence].
      destruct (formulate _ s) as [P|e]; [|discriminate H].
      destruct (ilp P) as [status ox]. unfold conclude in H.
      destruct (negb _); [discriminate H|].
      destruct (select hs ox); discriminate H. }
    apply build_Raise in Hb as [[-> _]|[(N & _ & _ & [=])|Hb]]; [done|].
    destruct Hb as (N & pre & u & post & _ & _ & _ & _ & _ & Hb).
    by destruct (recognised (type u)).
  - by intros ->.
Qed.

Lemma optimise_raises_witness :
  optimise (λ _, ("optimal"%string, Some [1%Q])) scenario_A =
    ([log_setup; log_optimising], Raise (IndexError "index out of range")) ∧
  (([log_setup; log_optimising] = [log_setup] ∧
    build scenario_A = Raise (IndexError "index out of range") ∧
    ((scenario_A = [] ∧
      IndexError "index out of range" =
      ValueError "max() arg is an empty sequence") ∨
     (∃ N, max_id scenario_A N ∧ N < 0 ∧
           IndexError "index out of range" =
           TypeError "dimensions must be non-negative") ∨
     (∃ N pre u post, max_id scenario_A N ∧ 0 ≤ N ∧
           scenario_A = pre ++ u :: post ∧
           Forall (encodable N (2 * N)) pre ∧ ¬ encodable N (2 * N) u ∧
           IndexError "index out of range" =
           if recognised (type u) then IndexError "index out of range"
           else ValueError "Unknown hypothesis"))) ∨
   ([log_setup; log_optimising] = [log_setup; log_optimising] ∧
    ∃ s P ox, build scenario_A = Ok s ∧
      formulate (length scenario_A) s = Ok P ∧
      (λ _ : ilp_args, ("optimal"%string, Some [1%Q])) P =
        ("optimal"%string, ox) ∧
      ((ox = None ∧
        IndexError "index out of range" =
        TypeError "'NoneType' object is not subscriptable") ∨
       (∃ x, ox = Some x ∧ (length x < length scenario_A)%nat ∧
             IndexError "index out of range" =
             IndexError "index out of range")))).
Proof.
  split; [vm_compute; reflexivity|].
  apply (optimise_raises (λ _, ("optimal"%string, Some [1%Q])) scenario_A).
  vm_compute. reflexivity.
Defined.

(** ** What a run leaves behind *)

Lemma select_from_sorted i hs ox r :
  select_from i hs ox = Ok r →
  StronglySorted lt r ∧ Forall (λ j, i ≤ j < i + length hs)%nat r.
Proof.
  revert i r. induction hs as [|h hs IH]; intros i r; simpl.
  - intros [= <-]. split; constructor.
  - destruct ox as [xs|]; [|done]. destruct (xs !! i) as [v|]; [|done].
    destruct (select_from (S i) hs (Some xs)) as [r'|] eqn:Hs; simpl; [|done].
    destruct (IH _ _ Hs) as [Hsorted Hrange]. intros [= <-].
    assert (Forall (λ j, i ≤ j < i + S (length hs))%nat r') as Hrange'.
    { eapply Forall_impl; [exact Hrange|]. simpl. lia. }
    destruct (Qgtb v 0); [|done]. split.
    + constructor; [done|]. eapply Forall_impl; [exact Hrange|]. simpl. lia.
    + constructor; [lia|done].
Qed.

(** X6.  The four ways a call of [optimise] ends.  It raises after one or
    after two records; or it logs one warning that carries the status of
    the solver, which is not optimal, and returns the empty list; or it
    logs the completion, always with the status optimal, and returns
    increasing indices of the pool.  So a warning is never followed by a
    non-empty selection or by an exception, and no run logs two. *)
Theorem optimise_outcomes (ilp : solver) (hypotheses : list PyHypothesis) :
  ((∃ e, optimise ilp hypotheses = ([log_setup], Raise e)) ∨
   (∃ e, optimise ilp hypotheses = ([log_setup; log_optimising], Raise e)) ∨
   (∃ status, status ≠ "optimal"%string ∧
      optimise ilp hypotheses =
        ([log_setup; log_optimising; log_not_optimal status], Ok [])) ∨
   (∃ results,
      optimise ilp hypotheses =
        ([log_setup; log_optimising; log_complete "optimal"], Ok results) ∧
      StronglySorted lt results ∧
      Forall (λ j, j < length hypotheses)%nat results)) ∧
  (warnings (optimise ilp hypotheses).1 ≤ 1)%nat ∧
  (warnings (optimise ilp hypotheses).1 = 1%nat →
   (optimise ilp hypotheses).2 = Ok []).
Proof.
  assert ((∃ e, optimise ilp hypotheses = ([log_setup], Raise e)) ∨
   (∃ e, optimise ilp hypotheses = ([log_setup; log_optimising], Raise e)) ∨
   (∃ status, status ≠ "optimal"%string ∧
      optimise ilp hypotheses =
        ([log_setup; log_optimising; log_not_optimal status], Ok [])) ∨
   (∃ results,
      optimise ilp hypotheses =
        ([log_setup; log_optimising; log_complete "optimal"], Ok results) ∧
      StronglySorted lt results ∧
      Forall (λ j, j < length hypotheses)%nat results)) as Hshape.
  { unfold optimise, optimise_with.
    destruct (build_with _ hypotheses) as [s|e]; [|left; by exists e].
    right. destruct (formulate _ s) as [P|e]; [|left; by exists e].
    destruct (ilp P) as [status ox]. unfold conclude.
    destruct (String.eqb_spec status "optimal") as [->|Hne]; cbn [negb].
    - unfold select. destruct (select_from 0 hypotheses ox) as [r|e] eqn:Hs.
      + right. right. exists r. split; [done|].
        apply select_from_sorted in Hs as [Hsorted Hrange]. split; [done|].
        eapply Forall_impl; [exact Hrange|]. simpl. lia.
      + left. by exists e.
    - right. left. by exists status. }
  split; [exact Hshape|].
  destruct Hshape as [[e ->]|[[e ->]|[(status & _ & ->)|(r & -> & _)]]];
    cbn; split; (lia || done).
Qed.

(** ** The cells of the matrix *)

Lemma CWRAP_range i m : - m ≤ i < m → 0 ≤ CWRAP i m < m.
Proof. unfold CWRAP. destruct (Z.leb_spec 0 i); lia. Qed.

Lemma set_rows_size A rows counter A' :
  set_rows A rows counter = Ok A' →
  (size (entries A') ≤ size (entries A) + length rows)%nat.
Proof.
  revert A. induction rows as [|i rows IH]; intros A; simpl.
  - intros [= <-]. lia.
  - intros H. apply bind_Ok_inv in H as (A1 & H1 & H2).
    apply sp_setitem_Ok in H1 as (_ & _ & ->). apply IH in H2. simpl in H2.
    rewrite map_size_insert in H2.
    destruct (entries A !! _); simpl in H2; lia.
Qed.

Lemma targets_length N h : (length (targets N h) ≤ 3)%nat.
Proof. unfold targets. destruct (type h); simpl; lia. Qed.

Lemma build_loop_size N c hs A rho A' rho' :
  build_loop N c hs A rho = Ok (A', rho') →
  (size (entries A') ≤ size (entries A) + 3 * length hs)%nat.
Proof.
  revert c A rho. induction hs as [|h hs IH]; intros c A rho; simpl.
  - intros [= <- <-]. lia.
  - intros H. apply bind_Ok_inv in H as (rho1 & _ & H).
    apply bind_Ok_inv in H as (A1 & H1 & H). apply IH in H.
    rewrite encode_set_rows in H1. destruct (recognised (type h)); [|done].
    apply set_rows_size in H1. pose proof (targets_length N h). lia.
Qed.

(** X7.  The matrix that [optimise] builds is a 0/1 matrix within its
    shape, whatever the ids: every cell stored holds 1 and lies in one of
    the [2N] rows and [n] columns; no column is empty; and no more than
    three cells are stored per hypothesis. *)
Theorem matrix_cells (hypotheses : list PyHypothesis) (s : built) :
  build hypotheses = Ok s →
  (∀ i j v, entries (built_A s) !! (i, j) = Some v →
            v = 1%Q ∧ 0 ≤ i < 2 * built_N s ∧
            0 ≤ j < Z.of_nat (length hypotheses)) ∧
  (∀ j, (j < length hypotheses)%nat →
        ∃ i, entries (built_A s) !! (i, Z.of_nat j) = Some 1%Q) ∧
  (size (entries (built_A s)) ≤ 3 * length hypotheses)%nat.
Proof.
  intros Hb. pose proof Hb as Hb'.
  apply build_with_Ok in Hb' as (_ & HN & _ & _ & _ & Hall & Hout & Hin).
  split_and!.
  - intros i j v Hv.
    destruct (decide (j < 0 ∨ Z.of_nat (length hypotheses) ≤ j)) as [Hj|Hj];
      [by rewrite Hout in Hv|].
    destruct (lookup_lt_is_Some_2 hypotheses (Z.to_nat j)) as [h Hh]; [lia|].
    replace j with (Z.of_nat (Z.to_nat j)) in Hv by lia.
    rewrite (Hin i _ h Hh) in Hv. case_decide as Hi; [|done].
    injection Hv as <-. split_and!; try done; try lia.
    + apply list_elem_of_fmap in Hi as (t & -> & Ht).
      rewrite Forall_forall in Hall.
      destruct (Hall h (list_elem_of_lookup_2 _ _ _ Hh)) as [_ Hrng].
      rewrite Forall_forall in Hrng. specialize (Hrng t Ht). simpl in Hrng.
      apply OUT_RNG_false in Hrng. apply CWRAP_range in Hrng. lia.
    + apply list_elem_of_fmap in Hi as (t & -> & Ht).
      rewrite Forall_forall in Hall.
      destruct (Hall h (list_elem_of_lookup_2 _ _ _ Hh)) as [_ Hrng].
      rewrite Forall_forall in Hrng. specialize (Hrng t Ht). simpl in Hrng.
      apply OUT_RNG_false in Hrng. apply CWRAP_range in Hrng. lia.
  - intros j Hj.
    destruct (lookup_lt_is_Some_2 hypotheses j) as [h Hh]; [lia|].
    rewrite Forall_forall in Hall.
    destruct (Hall h (list_elem_of_lookup_2 _ _ _ Hh)) as [Hrec _].
    pose proof (targets_nonempty (built_N s) h Hrec) as Hne.
    destruct (targets (built_N s) h) as [|t ts] eqn:Ht; [done|].
    exists (CWRAP t (2 * built_N s)). rewrite (Hin _ j h Hh).
    rewrite decide_True; [done|]. unfold phys_rows. rewrite Ht.
    rewrite fmap_cons. by left.
  - unfold build, build_with in Hb.
    apply bind_Ok_inv in Hb as (N & _ & Hb).
    apply bind_Ok_inv in Hb as (A & HA & Hb).
    apply bind_Ok_inv in Hb as ([A' rho'] & Hloop & [= <-]). simpl.
    apply spmatrix_new_Ok in HA as (_ & _ & ->).
    apply build_loop_size in Hloop. simpl in Hloop.
    rewrite map_size_empty in Hloop. lia.
Qed.

Lemma matrix_cells_witness :
  ∃ s, build seven_types = Ok s ∧
    ((∀ i j v, entries (built_A s) !! (i, j) = Some v →
               v = 1%Q ∧ 0 ≤ i < 2 * built_N s ∧
               0 ≤ j < Z.of_nat (length seven_types)) ∧
     (∀ j, (j < length seven_types)%nat →
           ∃ i, entries (built_A s) !! (i, Z.of_nat j) = Some 1%Q) ∧
     (size (entries (built_A s)) ≤ 3 * length seven_types)%nat).
Proof.
  eexists. split; [vm_compute; reflexivity|].
  apply (matrix_cells seven_types). vm_compute. reflexivity.
Defined.

(** ** Rows of a 0/1 matrix against a binary vector *)

Section Counting.
Variable M : spmatrix.
Variable r : Z.
Hypothesis cells : ∀ k, sp_get M r k = 0%Q ∨ sp_get M r k = 1%Q.

Lemma row_dot_from_nonneg j x :
  Forall is_binary x → (0 <= row_dot_from M r j x)%Q.
Proof.
  intros Hx. revert j. induction Hx as [|v x Hv _ IH]; intros j; simpl.
  - apply Qle_refl.
  - specialize (IH (S j)).
    destruct (cells (Z.of_nat j)) as [-> | ->], Hv as [Hv|Hv];
      rewrite Hv; lra.
Qed.

(** The row is orthogonal to [x] exactly when no column holding a one
    meets a one of [x]. *)
Lemma row_dot_from_zero_iff j x :
  Forall is_binary x →
  (row_dot_from M r j x == 0)%Q ↔
  ∀ k v, x !! k = Some v → sp_get M r (Z.of_nat (j + k)) = 1%Q → (v == 0)%Q.
Proof.
  intros Hx. revert j. induction Hx as [|v x Hv Hx IH]; intros j; simpl.
  - split; [|reflexivity]. intros _ k w. by rewrite lookup_nil.
  - pose proof (row_dot_from_nonneg (S j) x Hx) as Hrest.
    rewrite Forall_forall in Hx. split.
    + intros Hsum [|k] w; simpl.
      * intros [= <-]. rewrite Nat.add_0_r. intros Ha. rewrite Ha in Hsum.
        destruct Hv as [Hv|Hv]; [done|]. rewrite Hv in Hsum. lra.
      * intros Hw Ha. apply (proj1 (IH (S j))) with k; [|done|].
        -- destruct (cells (Z.of_nat j)) as [Ha0|Ha0], Hv as [Hv|Hv];
             rewrite Ha0, Hv in Hsum; lra.
        -- by replace (S j + k)%nat with (j + S k)%nat by lia.
    + intros Hall.
      assert (row_dot_from M r (S j) x == 0)%Q as ->.
      { apply IH. intros k w Hw Ha. apply (Hall (S k) w); [done|].
        by replace (j + S k)%nat with (S j + k)%nat by lia. }
      destruct (cells (Z.of_nat j)) as [Ha|Ha]; rewrite Ha; [lra|].
      rewrite (Hall 0%nat v); [lra|done|]. by rewrite Nat.add_0_r.
Qed.

(** The row times [x] is one exactly when one column holding a one meets
    a one of [x], and no other does. *)
Lemma row_dot_from_one_iff j x :
  Forall is_binary x →
  (row_dot_from M r j x == 1)%Q ↔
  ∃ k v, x !! k = Some v ∧ sp_get M r (Z.of_nat (j + k)) = 1%Q ∧ (v == 1)%Q ∧
    ∀ k' v', x !! k' = Some v' → sp_get M r (Z.of_nat (j + k')) = 1%Q →
             (v' == 1)%Q → k' = k.
Proof.
  intros Hx. revert j. induction Hx as [|v x Hv Hx IH]; intros j; simpl.
  - split; [intros H; lra|]. intros (k & w & Hw & _). by rewrite lookup_nil in Hw.
  - pose proof (row_dot_from_nonneg (S j) x Hx) as Hrest.
    pose proof (row_dot_from_zero_iff (S j) x Hx) as Hzero.
    assert (∀ k, (S j + k)%nat = (j + S k)%nat) as Hshift by (intros; lia).
    split.
    + intros Hsum.
      destruct (cells (Z.of_nat j)) as [Ha|Ha], Hv as [Hv|Hv];
        rewrite Ha, Hv in Hsum.
      1-3: (assert (row_dot_from M r (S j) x == 1)%Q as Hone by lra;
            apply IH in Hone as (k & w & Hw & Hak & Hw1 & Huniq);
            exists (S k), w; rewrite <- Hshift; split_and!; try done;
            intros [|k'] w'; simpl;
            [ intros [= <-]; rewrite Nat.add_0_r; intros Ha' Hv';
              first [ rewrite Ha in Ha'; discriminate Ha'
                    | rewrite Hv in Hv'; discriminate Hv' ]
            | rewrite <- Hshift; intros Hw' Ha' Hv'; f_equal;
              by apply (Huniq k' w') ]).
      assert (row_dot_from M r (S j) x == 0)%Q as Hnone by lra.
      exists 0%nat, v. rewrite Nat.add_0_r. split_and!; try done.
      intros [|k'] w'; simpl; [done|]. rewrite <- Hshift. intros Hw' Ha' Hv'.
      rewrite (proj1 Hzero Hnone k' w' Hw' Ha') in Hv'. discriminate Hv'.
    + intros (k & w & Hw & Hak & Hw1 & Huniq). destruct k as [|k]; simpl in Hw.
      * injection Hw as ->. rewrite Nat.add_0_r in Hak. rewrite Hak, Hw1.
        assert (row_dot_from M r (S j) x == 0)%Q as ->; [|lra].
        apply Hzero. intros k' w' Hw' Ha'.
        rewrite Forall_forall in Hx.
        destruct (Hx w' (list_elem_of_lookup_2 _ _ _ Hw')) as [?|Hw'1]; [done|].
        rewrite Hshift in Ha'. by specialize (Huniq (S k') w' Hw' Ha' Hw'1).
      * assert (row_dot_from M r (S j) x == 1)%Q as ->.
        { apply IH. exists k, w. rewrite Hshift. split_and!; try done.
          intros k' w' Hw' Ha' Hw'1. rewrite Hshift in Ha'.
          by specialize (Huniq (S k') w' Hw' Ha' Hw'1) as [= ->]. }
        destruct (cells (Z.of_nat j)) as [Ha|Ha]; rewrite Ha; [lra|].
        destruct Hv as [Hv|Hv]; rewrite Hv; [lra|].
        specialize (Huniq 0%nat v eq_refl). rewrite Nat.add_0_r in Huniq.
        by specialize (Huniq Ha Hv).
Qed.
End Counting.

(** ** The selection returned covers every slot once *)

Lemma cell_written hypotheses s r j :
  build hypotheses = Ok s →
  sp_get (built_A s) r (Z.of_nat j) = 1%Q ↔
  written_by (built_N s) hypotheses j r.
Proof.
  intros Hb. apply build_with_Ok in Hb as (_ & _ & _ & _ & _ & _ & Hout & Hin).
  unfold sp_get, written_by. destruct (hypotheses !! j) as [h|] eqn:Hh.
  - rewrite (Hin r j h Hh). case_decide as Hr; simpl.
    + split; [|done]. intros _. by exists h.
    + split; [done|]. by intros (h' & [= <-] & Hr').
  - rewrite Hout; simpl.
    + split; [done|]. by intros (h' & [=] & _).
    + right. apply lookup_ge_None in Hh. lia.
Qed.

Lemma cell_binary hypotheses s r k :
  build hypotheses = Ok s →
  sp_get (built_A s) r k = 0%Q ∨ sp_get (built_A s) r k = 1%Q.
Proof.
  intros Hb. unfold sp_get.
  destruct (entries (built_A s) !! (r, k)) as [v|] eqn:Hv; [|by left].
  apply build_with_Ok in Hb as (_ & _ & _ & _ & _ & _ & Hout & Hin).
  destruct (decide (k < 0 ∨ Z.of_nat (length hypotheses) ≤ k)) as [Hk|Hk];
    [by rewrite Hout in Hv|].
  destruct (lookup_lt_is_Some_2 hypotheses (Z.to_nat k)) as [h Hh]; [lia|].
  replace k with (Z.of_nat (Z.to_nat k)) in Hv by lia.
  rewrite (Hin r _ h Hh) in Hv. case_decide; [|done]. injection Hv as <-.
  by right.
Qed.

(** The feasible points of the program are the binary vectors whose ones
    cover every row once. *)
Lemma feasible_iff_cover hypotheses s P x :
  build hypotheses = Ok s →
  formulate (length hypotheses) s = Ok P →
  feasible P x ↔
  length x = length hypotheses ∧ Forall is_binary x ∧
  ∀ r, 0 ≤ r < 2 * built_N s →
    ∃ j, chosen x j ∧ written_by (built_N s) hypotheses j r ∧
         ∀ j', chosen x j' → written_by (built_N s) hypotheses j' r → j' = j.
Proof.
  intros Hb HP. rewrite (build_feasible _ _ _ x Hb HP).
  split; intros (Hlen & Hbin & Hrows); (split; [done|]); (split; [done|]).
  - intros r Hr. specialize (Hrows (Z.to_nat r) ltac:(lia)).
    rewrite Z2Nat.id in Hrows by lia. unfold row_dot in Hrows.
    apply (row_dot_from_one_iff _ _ (λ k, cell_binary _ _ r k Hb)) in Hrows
      as (j & v & Hv & Ha & Hv1 & Huniq); [|done].
    exists j. split_and!.
    + by exists v.
    + by apply (cell_written _ _ _ _ Hb).
    + intros j' (v' & Hv' & Hv'1) Hw. apply (Huniq j' v'); try done.
      by apply (cell_written _ _ _ _ Hb).
  - intros i Hi. destruct (Hrows (Z.of_nat i) ltac:(lia))
      as (j & (v & Hv & Hv1) & Hw & Huniq).
    unfold row_dot.
    apply (row_dot_from_one_iff _ _ (λ k, cell_binary _ _ _ k Hb)); [done|].
    exists j, v. split_and!; try done.
    + by apply (cell_written _ _ _ _ Hb).
    + intros j' v' Hv' Ha Hv'1. apply Huniq; [by exists v'|].
      by apply (cell_written _ _ _ _ Hb).
Qed.

Lemma positive_binary (v : Q) : is_binary v → Qgtb v 0 = true ↔ (v == 1)%Q.
Proof.
  intros [Hv|Hv].
  - rewrite (Qgtb_of_zero _ Hv). split; [done|]. rewrite Hv. discriminate.
  - by rewrite (Qgtb_of_one _ Hv).
Qed.

Lemma elem_of_positive (x : list Q) (n j : nat) :
  length x = n → Forall is_binary x →
  j ∈ List.filter (λ j, Qgtb (nth j x 0%Q) 0) (seq 0 n) ↔ chosen x j.
Proof.
  intros Hlen Hbin. rewrite list_elem_of_In, filter_In, in_seq. unfold chosen.
  split.
  - intros [Hj Hpos].
    destruct (lookup_lt_is_Some_2 x j) as [v Hv]; [lia|].
    exists v. split; [done|]. rewrite (nth_lookup_Some _ _ _ _ Hv) in Hpos.
    apply positive_binary; [|done]. by eapply Forall_lookup_1.
  - intros (v & Hv & Hv1). pose proof (lookup_lt_Some _ _ _ Hv).
    split; [lia|]. rewrite (nth_lookup_Some _ _ _ _ Hv).
    by apply Qgtb_of_one.
Qed.

(** A run that ends with a non-empty selection went through an optimal
    answer of the solver. *)
Lemma optimal_run (ilp : solver) hypotheses s results :
  sound ilp →
  build hypotheses = Ok s →
  (optimise ilp hypotheses).2 = Ok results →
  results ≠ [] →
  ∃ P x, formulate (length hypotheses) s = Ok P ∧
    feasible P x ∧
    (∀ y, feasible P y → (dot (ilp_c P) x <= dot (ilp_c P) y)%Q) ∧
    results = List.filter (λ j, Qgtb (nth j x 0%Q) 0)
                (seq 0 (length hypotheses)).
Proof.
  intros Hsound Hb Hres Hne.
  destruct (build_formulate _ _ Hb) as (P & HP & _).
  unfold optimise in Hres. rewrite (optimise_built _ _ _ _ _ Hb HP) in Hres.
  destruct (ilp P) as [status ox] eqn:Hilp.
  destruct (decide (status = "optimal"%string)) as [->|Hno].
  - destruct (Hsound P ox Hilp) as (x & -> & Hx & Hopt).
    exists P, x. split_and!; try done.
    pose proof (proj1 (build_feasible _ _ _ x Hb HP) Hx) as (Hlen & _).
    rewrite conclude_optimal in Hres by lia. simpl in Hres. congruence.
  - rewrite conclude_not_optimal in Hres by done. simpl in Hres. congruence.
Qed.

(** X8.  With a sound solver, a non-empty selection returned by
    [optimise] explains every boundary once: each of the [2N] rows, the
    tail and the head slot of every tracklet, is written by one selected
    hypothesis and by no other selected hypothesis. *)
Theorem selection_exact_cover (ilp : solver) (hypotheses : list PyHypothesis)
    (s : built) (results : list nat) :
  sound ilp →
  build hypotheses = Ok s →
  (optimise ilp hypotheses).2 = Ok results →
  results ≠ [] →
  exact_cover (built_N s) hypotheses results.
Proof.
  intros Hsound Hb Hres Hne.
  destruct (optimal_run ilp _ _ _ Hsound Hb Hres Hne)
    as (P & x & HP & Hx & _ & ->).
  apply (feasible_iff_cover _ _ _ _ Hb HP) in Hx as (Hlen & Hbin & Hcov).
  intros r Hr. destruct (Hcov r Hr) as (j & Hj & Hw & Huniq).
  exists j. split_and!.
  - by apply elem_of_positive.
  - done.
  - intros j' Hj' Hw'. apply Huniq; [|done]. by eapply elem_of_positive.
Qed.

Lemma selection_exact_cover_witness :
  sound ilp_exhaustive ∧
  ∃ s, build (scenario_B_covered 0 0) = Ok s ∧
    (optimise ilp_exhaustive (scenario_B_covered 0 0)).2 =
      Ok [2%nat; 3%nat; 4%nat] ∧
    [2%nat; 3%nat; 4%nat] ≠ [] ∧
    exact_cover (built_N s) (scenario_B_covered 0 0) [2%nat; 3%nat; 4%nat].
Proof.
  split; [exact ilp_exhaustive_sound|].
  eexists. split; [vm_compute; reflexivity|].
  split; [vm_compute; reflexivity|]. split; [discriminate|].
  apply (selection_exact_cover ilp_exhaustive (scenario_B_covered 0 0) _ _
           ilp_exhaustive_sound);
    [vm_compute; reflexivity | vm_compute; reflexivity | discriminate].
Defined.

(** ** The selection returned is a most likely one *)

Lemma dot_opp (l y : list Q) : (dot (Qopp <$> l) y == - dot l y)%Q.
Proof.
  revert y. induction l as [|a l IH]; intros y; [reflexivity|].
  destruct y as [|v y]; [reflexivity|]. cbn [fmap list_fmap dot].
  change (dot (Qopp <$> l) y) with (dot (list_fmap _ _ Qopp l) y) in IH.
  rewrite IH. ring.
Qed.

Lemma indicator_length n sel : length (indicator n sel) = n.
Proof. unfold indicator. by rewrite length_fmap, length_seq. Qed.

Lemma indicator_lookup n sel j v :
  indicator n sel !! j = Some v ↔
  (j < n)%nat ∧ v = if bool_decide (j ∈ sel) then 1%Q else 0%Q.
Proof.
  unfold indicator. rewrite list_lookup_fmap.
  destruct (seq 0 n !! j) as [k|] eqn:Hk; simpl.
  - apply lookup_seq in Hk as [-> Hj]. simpl. split.
    + intros [= <-]. by split.
    + by intros [_ ->].
  - apply lookup_ge_None in Hk. rewrite length_seq in Hk.
    split; [done|]. intros [Hj _]. lia.
Qed.

Lemma indicator_binary n sel : Forall is_binary (indicator n sel).
Proof.
  apply Forall_lookup. intros j v [_ ->]%indicator_lookup.
  case_bool_decide; [right|left]; reflexivity.
Qed.

Lemma indicator_chosen n sel j :
  chosen (indicator n sel) j ↔ (j < n)%nat ∧ j ∈ sel.
Proof.
  unfold chosen. split.
  - intros (v & [Hj ->]%indicator_lookup & Hv). split; [done|].
    case_bool_decide; [done|discriminate Hv].
  - intros [Hj Hsel]. exists 1%Q. split; [|reflexivity].
    apply indicator_lookup. split; [done|]. by rewrite bool_decide_true.
Qed.

(** A binary vector is, entry by entry, the indicator of its ones. *)
Lemma binary_indicator (x : list Q) :
  Forall is_binary x →
  Forall2 Qeq x
    (indicator (length x)
       (List.filter (λ j, Qgtb (nth j x 0%Q) 0) (seq 0 (length x)))).
Proof.
  intros Hbin. apply Forall2_same_length_lookup.
  split; [by rewrite indicator_length|].
  intros j v w Hv [Hj ->]%indicator_lookup.
  pose proof (Forall_lookup_1 _ _ _ _ Hbin Hv) as Hb.
  case_bool_decide as Hin.
  - apply elem_of_positive in Hin as (v' & Hv' & Hv'1); try done. congruence.
  - destruct Hb as [Hb|Hb]; [done|]. destruct Hin.
    apply elem_of_positive; try done. by exists v.
Qed.

(** The indicator of a selection that covers every row once is feasible. *)
Lemma exact_cover_feasible hypotheses s P sel :
  build hypotheses = Ok s →
  formulate (length hypotheses) s = Ok P →
  exact_cover (built_N s) hypotheses sel →
  feasible P (indicator (length hypotheses) sel).
Proof.
  intros Hb HP Hsel. apply (feasible_iff_cover _ _ _ _ Hb HP).
  split_and!; [apply indicator_length | apply indicator_binary |].
  intros r Hr. destruct (Hsel r Hr) as (j & Hj & Hw & Huniq).
  exists j. split_and!; [|done|].
  - apply indicator_chosen. split; [|done].
    destruct Hw as (h & Hh & _). by apply lookup_lt_Some in Hh.
  - intros j' [_ Hj']%indicator_chosen Hw'. by apply Huniq.
Qed.

(** X9.  With a sound solver, a non-empty selection returned by
    [optimise] is a most likely one: no selection that covers every row
    once has a larger sum of log-likelihoods. *)
Theorem selection_most_likely (ilp : solver) (hypotheses : list PyHypothesis)
    (s : built) (results sel : list nat) :
  sound ilp →
  build hypotheses = Ok s →
  (optimise ilp hypotheses).2 = Ok results →
  results ≠ [] →
  exact_cover (built_N s) hypotheses sel →
  (score hypotheses sel <= score hypotheses results)%Q.
Proof.
  intros Hsound Hb Hres Hne Hsel.
  destruct (optimal_run ilp _ _ _ Hsound Hb Hres Hne)
    as (P & x & HP & Hx & Hopt & ->).
  destruct (build_formulate _ _ Hb) as (P' & HP' & Hc & _).
  assert (P' = P) as -> by congruence.
  assert (ilp_c P = Qopp <$> (log_likelihood <$> hypotheses)) as Hc'.
  { rewrite Hc. by rewrite <- list_fmap_compose. }
  pose proof (proj1 (feasible_iff_cover _ _ _ _ Hb HP) Hx) as (Hlen & Hbin & _).
  pose proof (exact_cover_feasible _ _ _ _ Hb HP Hsel) as Hy.
  specialize (Hopt _ Hy). rewrite Hc', !dot_opp in Hopt.
  unfold score. rewrite <- Hlen at 2 3.
  rewrite <- (dot_proper _ _ _ (binary_indicator x Hbin)). lra.
Qed.

Lemma selection_most_likely_witness :
  sound ilp_exhaustive ∧
  ∃ s, build (scenario_B_covered 0 0) = Ok s ∧
    (optimise ilp_exhaustive (scenario_B_covered 0 0)).2 =
      Ok [2%nat; 3%nat; 4%nat] ∧
    [2%nat; 3%nat; 4%nat] ≠ [] ∧
    exact_cover (built_N s) (scenario_B_covered 0 0)
      [0%nat; 1%nat; 3%nat; 4%nat] ∧
    (score (scenario_B_covered 0 0) [0%nat; 1%nat; 3%nat; 4%nat] <=
     score (scenario_B_covered 0 0) [2%nat; 3%nat; 4%nat])%Q.
Proof.
  split; [exact ilp_exhaustive_sound|].
  eexists. split; [vm_compute; reflexivity|].
  split; [vm_compute; reflexivity|]. split; [discriminate|].
  assert (exact_cover 2 (scenario_B_covered 0 0) [0%nat; 1%nat; 3%nat; 4%nat])
    as Hcover.
  { intros r Hr.
    assert (r = 0 ∨ r = 1 ∨ r = 2 ∨ r = 3) as [->|[->|[->| ->]]] by lia;
      [exists 0%nat | exists 4%nat | exists 3%nat | exists 1%nat];
      (split_and!;
       [ by_decide
       | eexists; split; [reflexivity|]; by_decide
       | intros j' Hj' (h & Hh & Hw);
         repeat (apply elem_of_cons in Hj' as [->|Hj']);
         try (by apply elem_of_nil in Hj'); try reflexivity;
         injection Hh as <-; exfalso; revert Hw;
         eapply bool_decide_eq_false_1; vm_compute; reflexivity ]). }
  split; [exact Hcover|].
  eapply (selection_most_likely ilp_exhaustive (scenario_B_covered 0 0) _
            [2%nat; 3%nat; 4%nat] [0%nat; 1%nat; 3%nat; 4%nat]
            ilp_exhaustive_sound);
    [vm_compute; reflexivity | vm_compute; reflexivity | discriminate
     | exact Hcover].
Defined.

(** ** When nothing is selected *)

(** X11.  With a sound and complete solver a pool that is built never
    makes [optimise] raise, and the empty list comes back exactly when no
    selection covers every row once; otherwise the list returned is not
    empty and is such a cover. *)
Theorem empty_selection_iff (ilp : solver) (hypotheses : list PyHypothesis)
    (s : built) :
  sound ilp →
  complete ilp →
  build hypotheses = Ok s →
  ∃ results, (optimise ilp hypotheses).2 = Ok results ∧
    (results = [] ↔ ¬ ∃ sel, exact_cover (built_N s) hypotheses sel) ∧
    (results ≠ [] → exact_cover (built_N s) hypotheses results).
Proof.
  intros Hsound Hcomplete Hb.
  destruct (build_formulate _ _ Hb) as (P & HP & Hc & _ & _ & HA & _ & HI & HB).
  pose proof Hb as Hshape.
  apply build_with_Ok in Hshape as (_ & _ & Hrows & Hcols & _ & Hall & _).
  assert (∀ sel, exact_cover (built_N s) hypotheses sel →
                 feasible P (indicator (length hypotheses) sel)) as Hcover
    by (intros sel; by apply exact_cover_feasible).
  assert (1 ≤ built_N s) as HN.
  { pose proof (build_max_id _ _ Hb) as [(h & Hh & _) _].
    rewrite Forall_forall in Hall.
    pose proof (encodable_rows_positive _ _ _ (Hall h Hh)). lia. }
  unfold optimise. rewrite (optimise_built _ _ _ _ _ Hb HP).
  destruct (ilp P) as [status ox] eqn:Hilp.
  destruct (decide (status = "optimal"%string)) as [->|Hno].
  - destruct (Hsound P ox Hilp) as (x & -> & Hx & _).
    pose proof (proj1 (feasible_iff_cover _ _ _ _ Hb HP) Hx)
      as (Hlen & Hbin & Hcov).
    rewrite conclude_optimal by lia. eexists. split; [done|].
    assert (exact_cover (built_N s) hypotheses
              (List.filter (λ j, Qgtb (nth j x 0%Q) 0)
                 (seq 0 (length hypotheses)))) as Hres.
    { intros r Hr. destruct (Hcov r Hr) as (j & Hj & Hw & Huniq).
      exists j. split_and!; [by apply elem_of_positive|done|].
      intros j' Hj' Hw'. apply Huniq; [|done]. by eapply elem_of_positive. }
    split; [|done]. split.
    + intros Hnil. rewrite Hnil in Hres.
      destruct (Hres 0 ltac:(lia)) as (j & Hj & _). by apply elem_of_nil in Hj.
    + intros Hnone. destruct Hnone. by eexists.
  - rewrite conclude_not_optimal by done. exists []. split; [done|].
    split; [|done]. split; [|done]. intros _ [sel Hsel].
    destruct (Hcomplete P (indicator (length hypotheses) sel) HI) as [x Hx].
    + by rewrite HB, HA, Hcols, Nat2Z.id.
    + by rewrite Hc, HA, Hcols, Nat2Z.id, length_fmap.
    + by apply Hcover.
    + congruence.
Qed.

Lemma empty_selection_iff_witness :
  sound ilp_exhaustive ∧ complete ilp_exhaustive ∧
  ∃ s, build scenario_B = Ok s ∧
    ∃ results, (optimise ilp_exhaustive scenario_B).2 = Ok results ∧
      (results = [] ↔ ¬ ∃ sel, exact_cover (built_N s) scenario_B sel) ∧
      (results ≠ [] → exact_cover (built_N s) scenario_B results).
Proof.
  split; [exact ilp_exhaustive_sound|].
  split; [exact ilp_exhaustive_complete|].
  eexists. split; [vm_compute; reflexivity|].
  apply (empty_selection_iff ilp_exhaustive scenario_B _
           ilp_exhaustive_sound ilp_exhaustive_complete).
  vm_compute. reflexivity.
Defined.

(** ** Adding hypotheses to a pool *)

(** X10.  Hypotheses appended to a pool without raising its largest id
    leave the columns and the scores of the pool as they were: the new
    matrix agrees with the old one on the first columns, and the new
    scores are the old ones followed by those of the added hypotheses. *)
Theorem build_append (hypotheses extra : list PyHypothesis) (s s' : built) :
  build hypotheses = Ok s →
  build (hypotheses ++ extra) = Ok s' →
  built_N s' = built_N s →
  nrows (built_A s') = nrows (built_A s) ∧
  (∀ i j, j < Z.of_nat (length hypotheses) →
          entries (built_A s') !! (i, j) = entries (built_A s) !! (i, j)) ∧
  built_rho s' = built_rho s ++ (log_likelihood <$> extra).
Proof.
  intros Hb Hb' HN.
  apply build_with_Ok in Hb as (_ & _ & Hr & _ & Hrho & _ & Hout & Hin).
  apply build_with_Ok in Hb' as (_ & _ & Hr' & _ & Hrho' & _ & Hout' & Hin').
  split_and!.
  - by rewrite Hr, Hr', HN.
  - intros i j Hj. destruct (decide (j < 0)) as [Hneg|Hpos].
    + rewrite Hout, Hout'; [done|by left|by left].
    + destruct (lookup_lt_is_Some_2 hypotheses (Z.to_nat j)) as [h Hh]; [lia|].
      replace j with (Z.of_nat (Z.to_nat j)) by lia.
      rewrite (Hin i _ h Hh), (Hin' i _ h), HN; [done|].
      by apply lookup_app_l_Some.
  - by rewrite Hrho, Hrho', fmap_app.
Qed.

Lemma build_append_witness :
  ∃ s s', build scenario_B = Ok s ∧
    build (scenario_B ++ [hypothesis 1 INITIALIZE 0 0 0;
                          hypothesis 2 TERMINATE 0 0 0]) = Ok s' ∧
    built_N s' = built_N s ∧
    (nrows (built_A s') = nrows (built_A s) ∧
     (∀ i j, j < Z.of_nat (length scenario_B) →
             entries (built_A s') !! (i, j) = entries (built_A s) !! (i, j)) ∧
     built_rho s' =
       built_rho s ++ (log_likelihood <$> [hypothesis 1 INITIALIZE 0 0 0;
                                           hypothesis 2 TERMINATE 0 0 0])).
Proof.
  do 2 eexists. split; [vm_compute; reflexivity|].
  split; [vm_compute; reflexivity|]. split; [reflexivity|].
  apply (build_append scenario_B [hypothesis 1 INITIALIZE 0 0 0;
                                  hypothesis 2 TERMINATE 0 0 0]);
    [vm_compute; reflexivity | vm_compute; reflexivity | reflexivity].
Defined.

(** ** Loading the tracker library *)

Lemma file_ext_lookup (system ext : string) :
  LibWrapper.file_ext !! system = Some ext ↔
  (system = "Linux"%string ∧ ext = ".so"%string) ∨
  (system = "Darwin"%string ∧ ext = ".dylib"%string) ∨
  (system = "Windows"%string ∧ ext = ".DLL"%string).
Proof.
  unfold LibWrapper.file_ext. split.
  - intros Hl. rewrite lookup_insert in Hl.
    case_decide as E1; [left; split; congruence|].
    rewrite lookup_insert in Hl.
    case_decide as E2; [right; left; split; congruence|].
    rewrite lookup_singleton in Hl.
    case_decide as E3; [right; right; split; congruence|]. done.
  - intros [[-> ->]|[[-> ->]|[-> ->]]]; vm_compute; reflexivity.
Qed.

(** X12.  [load_library] returns a library exactly when the file name is
    a string, the platform is Linux, Darwin or Windows, and the loader
    accepts the name with its extension replaced by [.so], [.dylib] or
    [.DLL]; the library is the one the loader gave.  It then asked the
    loader once, for that path, and the last record logged names it. *)
Theorem load_library_returns (env : LibWrapper.environment)
    (filename : LibWrapper.value) (lib : Z) :
  (LibWrapper.load_library env filename).2 = LibWrapper.Return lib ↔
  ∃ name ext path,
    filename = LibWrapper.Str name ∧
    ((LibWrapper.platform_system env = "Linux"%string ∧ ext = ".so"%string) ∨
     (LibWrapper.platform_system env = "Darwin"%string ∧ ext = ".dylib"%string) ∨
     (LibWrapper.platform_system env = "Windows"%string ∧ ext = ".DLL"%string)) ∧
    path = ((LibWrapper.splitext env name).1 +:+ ext)%string ∧
    LibWrapper.LoadLibrary env path = LibWrapper.Return lib ∧
    LibWrapper.calls (LibWrapper.load_library env filename).1 = [path] ∧
    last (LibWrapper.records (LibWrapper.load_library env filename).1) =
      Some (INFO, ("Loaded btrack: " +:+ path)%string).
Proof.
  unfold LibWrapper.load_library. split.
  - destruct filename as [name| |]; [|done|done].
    destruct (LibWrapper.splitext env name) as [lib_file e0] eqn:Hsplit.
    destruct (LibWrapper.file_ext !! LibWrapper.platform_system env)
      as [ext|] eqn:Hext; [|done].
    destruct (LibWrapper.LoadLibrary env (lib_file +:+ ext)) as [l|ex] eqn:Hload.
    + simpl. intros [= ->]. exists name, ext, (lib_file +:+ ext)%string.
      split_and!; try done.
      * by apply file_ext_lookup.
      * by rewrite Hsplit.
      * by destruct (LibWrapper.system_is_Windows env).
      * by destruct (LibWrapper.system_is_Windows env).
    + by destruct ex.
  - intros (name & ext & path & -> & Hext%file_ext_lookup & -> & Hload & _).
    destruct (LibWrapper.splitext env name) as [lib_file e0]. simpl in Hload.
    by rewrite Hext, Hload.
Qed.

(** X13.  How [load_library] fails, and what it has done by then.  A
    file name that is not a string gives a [TypeError] with nothing logged
    and no loader asked; a platform outside the table gives a [KeyError]
    naming it, before the loader is asked; an [IOError] of the loader is
    replaced by one naming the path, and any other exception of the loader
    leaves unchanged.  The loader is asked once at most and the record of
    a load is not logged. *)
Theorem load_library_throws (env : LibWrapper.environment)
    (filename : LibWrapper.value) (e : LibWrapper.exn) :
  (LibWrapper.load_library env filename).2 = LibWrapper.Throw e →
  (∀ path, (INFO, ("Loaded btrack: " +:+ path)%string) ∉
           LibWrapper.records (LibWrapper.load_library env filename).1) ∧
  (((∀ name, filename ≠ LibWrapper.Str name) ∧
    e = LibWrapper.TypeError "Filename must be a string" ∧
    (LibWrapper.load_library env filename).1 = []) ∨
   (∃ name, filename = LibWrapper.Str name ∧
      LibWrapper.file_ext !! LibWrapper.platform_system env = None ∧
      e = LibWrapper.KeyError (LibWrapper.platform_system env) ∧
      LibWrapper.calls (LibWrapper.load_library env filename).1 = []) ∨
   (∃ name ext path e0, filename = LibWrapper.Str name ∧
      LibWrapper.file_ext !! LibWrapper.platform_system env = Some ext ∧
      path = ((LibWrapper.splitext env name).1 +:+ ext)%string ∧
      LibWrapper.calls (LibWrapper.load_library env filename).1 = [path] ∧
      LibWrapper.LoadLibrary env path = LibWrapper.Throw e0 ∧
      e = match e0 with
          | LibWrapper.IOError _ =>
              LibWrapper.IOError ("Cannot load shared library " +:+ path)
          | _ => e0
          end)).
Proof.
  unfold LibWrapper.load_library.
  destruct filename as [name|z|].
  2,3: (simpl; intros [= <-]; split;
        [intros path Hin; by apply elem_of_nil in Hin | left; by split_and!]).
  destruct (LibWrapper.splitext env name) as [lib_file e1] eqn:Hsplit.
  assert (∀ path, (INFO, ("Loaded btrack: " +:+ path)%string) ∉
            LibWrapper.records
              (if LibWrapper.system_is_Windows env
               then [LibWrapper.Logged LibWrapper.windows_warning] else []))
    as Hrec.
  { intros path Hin. destruct (LibWrapper.system_is_Windows env); simpl in Hin.
    - apply list_elem_of_singleton in Hin. discriminate Hin.
    - by apply elem_of_nil in Hin. }
  assert (∀ p, LibWrapper.calls
            ((if LibWrapper.system_is_Windows env
              then [LibWrapper.Logged LibWrapper.windows_warning] else []) ++
             [LibWrapper.Called_LoadLibrary p]) = [p]) as Hcalls
    by (intros p; by destruct (LibWrapper.system_is_Windows env)).
  assert (∀ p, LibWrapper.records
            ((if LibWrapper.system_is_Windows env
              then [LibWrapper.Logged LibWrapper.windows_warning] else []) ++
             [LibWrapper.Called_LoadLibrary p]) =
          LibWrapper.records
            (if LibWrapper.system_is_Windows env
             then [LibWrapper.Logged LibWrapper.windows_warning] else []))
    as Hrecs by (intros p; by destruct (LibWrapper.system_is_Windows env)).
  destruct (LibWrapper.file_ext !! LibWrapper.platform_system env)
    as [ext|] eqn:Hext.
  - destruct (LibWrapper.LoadLibrary env (lib_file +:+ ext)) as [l|e0] eqn:Hload;
      [done|].
    intros He. split.
    + intros path. destruct e0; cbn [fst]; rewrite Hrecs; apply Hrec.
    + right. right. exists name, ext, (lib_file +:+ ext)%string, e0.
      rewrite Hsplit. cbn [fst].
      destruct e0; cbn [fst snd] in *; injection He as <-;
        by split_and!.
  - cbn [fst snd]. intros [= <-]. split; [apply Hrec|].
    right. left. exists name. split_and!; try done.
    by destruct (LibWrapper.system_is_Windows env).
Qed.

Lemma load_library_throws_witness :
  (LibWrapper.load_library linux_without_library
     (LibWrapper.Str "libs/libtracker")).2 =
  LibWrapper.Throw
    (LibWrapper.OtherError "OSError"
       "cannot open shared object file: No such file or directory") ∧
  LibWrapper.calls
    (LibWrapper.load_library linux_without_library
       (LibWrapper.Str "libs/libtracker")).1 = ["libs/libtracker.so"%string] ∧
  ∀ path, (INFO, ("Loaded btrack: " +:+ path)%string) ∉
          LibWrapper.records
            (LibWrapper.load_library linux_without_library
               (LibWrapper.Str "libs/libtracker")).1.
Proof.
  split; [reflexivity|]. split; [reflexivity|].
  exact (proj1 (load_library_throws linux_without_library
                  (LibWrapper.Str "libs/libtracker") _ eq_refl)).
Defined.

(** X14.  The warning about Windows is logged only when the platform is
    Windows, and then before anything else is done: the test is one of
    identity with the literal, and identical strings are equal.  On Linux
    and Darwin no warning is logged. *)
Theorem load_library_warns (env : LibWrapper.environment)
    (filename : LibWrapper.value) :
  LibWrapper.identity_sound env →
  LibWrapper.Logged LibWrapper.windows_warning ∈
    (LibWrapper.load_library env filename).1 →
  LibWrapper.platform_system env = "Windows"%string ∧
  hd_error (LibWrapper.load_library env filename).1 =
    Some (LibWrapper.Logged LibWrapper.windows_warning).
Proof.
  intros Hid. unfold LibWrapper.load_library.
  destruct filename as [name|z|];
    [|by intros Hin%elem_of_nil|by intros Hin%elem_of_nil].
  destruct (LibWrapper.splitext env name) as [lib_file e1].
  destruct (LibWrapper.system_is_Windows env) eqn:Hw.
  - intros _. split; [by apply Hid|].
    destruct (LibWrapper.file_ext !! LibWrapper.platform_system env); [|done].
    destruct (LibWrapper.LoadLibrary env _) as [l|[]]; done.
  - intros Hin. exfalso.
    destruct (LibWrapper.file_ext !! LibWrapper.platform_system env);
      [|by apply elem_of_nil in Hin].
    destruct (LibWrapper.LoadLibrary env _) as [l|[]]; cbn in Hin;
      repeat (apply elem_of_cons in Hin as [Hin|Hin]; [discriminate Hin|]);
      by apply elem_of_nil in Hin.
Qed.

Lemma load_library_warns_witness :
  LibWrapper.identity_sound windows_with_library ∧
  LibWrapper.Logged LibWrapper.windows_warning ∈
    (LibWrapper.load_library windows_with_library
       (LibWrapper.Str "libs/libtracker")).1 ∧
  LibWrapper.platform_system windows_with_library = "Windows"%string ∧
  hd_error (LibWrapper.load_library windows_with_library
          (LibWrapper.Str "libs/libtracker")).1 =
    Some (LibWrapper.Logged LibWrapper.windows_warning).
Proof.
  assert (LibWrapper.identity_sound windows_with_library) as Hid
    by (intros _; reflexivity).
  assert (LibWrapper.Logged LibWrapper.windows_warning ∈
            (LibWrapper.load_library windows_with_library
               (LibWrapper.Str "libs/libtracker")).1) as Hin
    by (cbn; apply elem_of_cons; by left).
  split; [exact Hid|]. split; [exact Hin|].
  exact (load_library_warns windows_with_library
           (LibWrapper.Str "libs/libtracker") Hid Hin).
Defined.
